(** * otel-go-app-sample: the /products aggregation handler

    A shallow embedding of package [utils] (GetAllProducts, validateRequest,
    processData, GetProductsHandler) and of [otelsetup.HandleSlowAPI].

    - Spans, sleeps and store accesses are recorded as events.
    - The sources of non-determinism of one request (the package-level store
      handle, the two random draws, the clock) are gathered in a [World].
    - The handler and the goroutine it starts are two threads of a small
      step machine that communicate over the unbuffered channel [slowChan]. *)

From Stdlib Require Import List String ZArith NArith Bool Lia.
From Stdlib Require Import Floats.SpecFloat.
Import ListNotations.
Open Scope string_scope.
Open Scope list_scope.
Open Scope Z_scope.

(** String concatenation, as [+] on Go strings and [fmt.Sprintf]. *)
Infix "+++" := String.append (at level 60, right associativity).

Set Implicit Arguments.
Set Warnings "-register-all".

(** ** Go values *)

(** [err.Error()] of a non-nil error; a nil error is [None]. *)
Definition error := string.

(** A float32 by its IEEE 754 class, sign, mantissa and exponent. *)
Definition float32 := spec_float.

(** A Go slice is nil or holds elements: [var s []T] is [None]. *)
Definition slice (A : Type) := option (list A).

Definition len {A} (s : slice A) : Z :=
  match s with
  | None => 0
  | Some l => Z.of_nat (List.length l)
  end.

Definition append {A} (s : slice A) (x : A) : slice A :=
  match s with
  | None => Some [x]
  | Some l => Some (l ++ [x])
  end.

Definition elems {A} (s : slice A) : list A :=
  match s with
  | None => []
  | Some l => l
  end.

(** ** Data model *)

Record Product := {
  ID : N;
  Name : string;
  Quantity : Z;
  Price : float32
}.

Record Response := {
  Products : slice Product;
  SlowStatus : Z;
  SlowMessage : string;
  ProcessStatus : string
}.

Definition StatusOK : Z := 200.
Definition StatusBadRequest : Z := 400.
Definition StatusInternalServerError : Z := 500.

(** ** encoding/json, as far as [Response] needs it *)

Inductive json :=
| JNull
| JInt (z : Z)
| JFloat (f : float32)
| JString (s : string)
| JArray (items : list json)
| JObject (fields : list (string * json)).

(** A float field is refused when it is NaN or infinite. *)
Definition marshalFloat (f : float32) : error + json :=
  match f with
  | S754_nan => inl "json: unsupported value: NaN"
  | S754_infinity false => inl "json: unsupported value: +Inf"
  | S754_infinity true => inl "json: unsupported value: -Inf"
  | _ => inr (JFloat f)
  end.

Definition marshalProduct (p : Product) : error + json :=
  match marshalFloat (Price p) with
  | inl e => inl e
  | inr price =>
      inr (JObject [("id", JInt (Z.of_N (ID p)));
                    ("name", JString (Name p));
                    ("quantity", JInt (Quantity p));
                    ("price", price)])
  end.

Fixpoint marshalProducts (l : list Product) : error + list json :=
  match l with
  | [] => inr []
  | p :: rest =>
      match marshalProduct p with
      | inl e => inl e
      | inr v =>
          match marshalProducts rest with
          | inl e => inl e
          | inr vs => inr (v :: vs)
          end
      end
  end.

(** A nil slice is written as null, any other slice as an array. *)
Definition marshalSlice (s : slice Product) : error + json :=
  match s with
  | None => inr JNull
  | Some l =>
      match marshalProducts l with
      | inl e => inl e
      | inr vs => inr (JArray vs)
      end
  end.

Definition marshalResponse (r : Response) : error + json :=
  match marshalSlice (Products r) with
  | inl e => inl e
  | inr ps =>
      inr (JObject [("products", ps);
                    ("slow_status", JInt (SlowStatus r));
                    ("slow_message", JString (SlowMessage r));
                    ("process_status", JString (ProcessStatus r))])
  end.

Fixpoint assoc {A} (k : string) (l : list (string * A)) : option A :=
  match l with
  | [] => None
  | (k', v) :: rest => if String.eqb k k' then Some v else assoc k rest
  end.

Definition field (k : string) (v : json) : option json :=
  match v with
  | JObject fields => assoc k fields
  | _ => None
  end.

(** ** net/http response writers *)

Definition Header := list (string * string).

Fixpoint Header_Del (k : string) (h : Header) : Header :=
  match h with
  | [] => []
  | (k', v) :: rest =>
      if String.eqb k k' then Header_Del k rest else (k', v) :: Header_Del k rest
  end.

Definition Header_Set (k v : string) (h : Header) : Header :=
  Header_Del k h ++ [(k, v)].

(** The part of [http.ResponseWriter] the handlers use. *)
Class ResponseWriter (W : Type) := {
  SetHeader : string -> string -> W -> W;
  DelHeader : string -> W -> W;
  WriteHeader : Z -> W -> W;
  Write : string -> W -> W
}.

(** [httptest.ResponseRecorder]: [Code] starts at 200, the first
    [WriteHeader] wins, [Body] collects what is written. *)
Record ResponseRecorder := {
  rec_HeaderMap : Header;
  rec_wroteHeader : bool;
  Code : Z;
  Body : string
}.

Definition NewRecorder : ResponseRecorder :=
  {| rec_HeaderMap := []; rec_wroteHeader := false; Code := 200; Body := "" |}.

Definition rec_WriteHeader (code : Z) (r : ResponseRecorder) : ResponseRecorder :=
  if rec_wroteHeader r then r
  else {| rec_HeaderMap := rec_HeaderMap r; rec_wroteHeader := true;
          Code := code; Body := Body r |}.

Definition rec_Write (s : string) (r : ResponseRecorder) : ResponseRecorder :=
  let r' := rec_WriteHeader 200 r in
  {| rec_HeaderMap := rec_HeaderMap r'; rec_wroteHeader := true;
     Code := Code r'; Body := Body r' +++ s |}.

#[export] Instance ResponseRecorder_writer : ResponseWriter ResponseRecorder := {
  SetHeader k v r :=
    {| rec_HeaderMap := Header_Set k v (rec_HeaderMap r);
       rec_wroteHeader := rec_wroteHeader r; Code := Code r; Body := Body r |};
  DelHeader k r :=
    {| rec_HeaderMap := Header_Del k (rec_HeaderMap r);
       rec_wroteHeader := rec_wroteHeader r; Code := Code r; Body := Body r |};
  WriteHeader := rec_WriteHeader;
  Write := rec_Write
}.

(** The server's writer for the client of /products.  Each write is kept as
    one payload: text, or a JSON document followed by a newline as
    [Encoder.Encode] writes it. [sentHeader] is the header map as it was when
    the status line went out; later changes of [header] are not sent. *)
Inductive payload :=
| Text (s : string)
| JSONLine (v : json).

Record response := {
  header : Header;
  wroteHeader : bool;
  statusCode : Z;
  sentHeader : Header;
  body : list payload
}.

Definition newResponse : response :=
  {| header := []; wroteHeader := false; statusCode := 200; sentHeader := [];
     body := [] |}.

Definition resp_WriteHeader (code : Z) (w : response) : response :=
  if wroteHeader w then w
  else {| header := header w; wroteHeader := true; statusCode := code;
          sentHeader := header w; body := body w |}.

Definition resp_WritePayload (p : payload) (w : response) : response :=
  let w' := resp_WriteHeader 200 w in
  {| header := header w'; wroteHeader := true; statusCode := statusCode w';
     sentHeader := sentHeader w'; body := body w' ++ [p] |}.

#[export] Instance response_writer : ResponseWriter response := {
  SetHeader k v w :=
    {| header := Header_Set k v (header w); wroteHeader := wroteHeader w;
       statusCode := statusCode w; sentHeader := sentHeader w;
       body := body w |};
  DelHeader k w :=
    {| header := Header_Del k (header w); wroteHeader := wroteHeader w;
       statusCode := statusCode w; sentHeader := sentHeader w;
       body := body w |};
  WriteHeader := resp_WriteHeader;
  Write s := resp_WritePayload (Text s)
}.

Definition newline : string := String (Ascii.ascii_of_nat 10) EmptyString.

(** [http.Error(w, msg, code)] *)
Definition http_Error {W} `{ResponseWriter W} (w : W) (msg : string) (code : Z) : W :=
  let w := DelHeader "Content-Length" w in
  let w := SetHeader "Content-Type" "text/plain; charset=utf-8" w in
  let w := SetHeader "X-Content-Type-Options" "nosniff" w in
  let w := WriteHeader code w in
  Write (msg +++ newline) w.

(** [json.NewEncoder(w).Encode(v)]: the value is marshalled first, and
    nothing is written when that fails. *)
Definition Encode (w : response) (r : Response) : response * option error :=
  match marshalResponse r with
  | inl e => (w, Some e)
  | inr v => (resp_WritePayload (JSONLine v) w, None)
  end.

(** ** Tracing and other effects *)

Inductive attrValue :=
| AttrString (s : string)
| AttrInt (n : Z).

(** What a unit of work does besides computing: span calls of
    [otel.Tracer("utils")] (a span is named by the string it was started
    with), sleeps, and calls on the store handle. *)
Inductive event :=
| SpanStart (span : string)
| SpanSetAttributes (span key : string) (v : attrValue)
| SpanEnd (span : string)
| TimeSleep (ms : Z)
| DBQuery (query : string)
| RowsClose.

(** [_, span := otel.Tracer("utils").Start(ctx, name); defer span.End()]
    around a function body: the deferred [End] runs last. *)
Definition withSpan {A} (name : string) (body : list event * A) : list event * A :=
  (SpanStart name :: fst body ++ [SpanEnd name], snd body).

(** ** The store *)

(** A cursor: [Next] is true once per element of [rows_data], whose [Scan]
    fails or fills a product; after that [Next] is false and [Err] is
    [rows_Err]. *)
Record Rows := {
  rows_data : list (error + Product);
  rows_Err : option error
}.

Record sqlDB := {
  QueryContext : string -> error + Rows
}.

(** ** One request's environment *)

Record World := {
  DB : option sqlDB;        (* the package variable DB; nil before InitDB *)
  validateDraw : float32;   (* rand.Float32() in validateRequest *)
  processDraw : float32;    (* rand.Float32() in processData *)
  now : string              (* time.Now().Format(time.RFC3339) in HandleSlowAPI *)
}.

(** The constants 0.2 and 0.3 as float32: 13421773 * 2^-26 and
    10066330 * 2^-25. *)
Definition f32_0_2 : float32 := S754_finite false 13421773 (-26).
Definition f32_0_3 : float32 := S754_finite false 10066330 (-25).

(** ** Stages *)

Definition query : string := "SELECT id, name, quantity, price FROM products".

(** The loop [for rows.Next() { ... rows.Scan ... append }]: the first
    failing [Scan] leaves the loop with its error. *)
Fixpoint scanRows (data : list (error + Product)) (products : slice Product)
  : error + slice Product :=
  match data with
  | [] => inr products
  | inl err :: _ => inl err
  | inr p :: rest => scanRows rest (append products p)
  end.

Definition GetAllProducts (db : option sqlDB)
  : list event * (slice Product * option error) :=
  let span := "GetAllProducts" in
  withSpan span
    match db with
    | None =>
        ([SpanSetAttributes span "error" (AttrString "database not initialized");
          SpanEnd span],
         (None, Some "database connection not initialized; call InitDB first"))
    | Some db =>
        match QueryContext db query with
        | inl err =>
            ([DBQuery query; SpanSetAttributes span "error" (AttrString err)],
             (None, Some ("error querying products: " +++ err)))
        | inr rows =>
            match scanRows (rows_data rows) None with
            | inl err =>
                ([DBQuery query; SpanSetAttributes span "error" (AttrString err);
                  RowsClose],
                 (None, Some ("error scanning product row: " +++ err)))
            | inr products =>
                match rows_Err rows with
                | Some err =>
                    ([DBQuery query;
                      SpanSetAttributes span "error" (AttrString err); RowsClose],
                     (None, Some ("error iterating over product rows: " +++ err)))
                | None =>
                    ([DBQuery query;
                      SpanSetAttributes span "product_count" (AttrInt (len products));
                      RowsClose],
                     (products, None))
                end
            end
        end
    end.

Definition validateRequest (draw : float32) : list event * option error :=
  let span := "validateRequest" in
  withSpan span
    (if SFltb draw f32_0_2
     then ([TimeSleep 1000;
            SpanSetAttributes span "error" (AttrString "validation failed")],
           Some "request validation failed")
     else ([TimeSleep 1000], None)).

Definition processData (draw : float32) (products : slice Product)
  : list event * (string * option error) :=
  let span := "processData" in
  withSpan span
    (if SFltb draw f32_0_3
     then ([TimeSleep 1500;
            SpanSetAttributes span "error" (AttrString "processing failed")],
           ("failed", Some "data processing failed"))
     else ([TimeSleep 1500;
            SpanSetAttributes span "processed_count" (AttrInt (len products))],
           ("success", None))).

(** [otelsetup.HandleSlowAPI]; it reads neither the request nor the context. *)
Definition HandleSlowAPI {W} `{ResponseWriter W} (now : string) (w : W)
  : list event * W :=
  ([TimeSleep 2000],
   Write ("Slow API response at " +++ now +++ newline) (WriteHeader StatusOK w)).

(** ** GetProductsHandler as two units of work *)

Inductive thread :=
| Handler      (* the goroutine serving the request *)
| Dependent.   (* the goroutine started by [go func() { ... }()] *)

Record slowResult := {
  status : Z;
  msg : string
}.

(** Where the handler is.  A call loads the callee's events into the
    thread's queue and moves to the point where the call has returned; the
    queue drains one event per step before control goes on. *)
Inductive handlerPC :=
| HStart
| HValidated (err : option error)                      (* line 134 *)
| HFetched (products : slice Product) (err : option error)   (* line 141 *)
| HProcessed (products : slice Product) (processStatus : string)
             (err : option error)                      (* line 161 *)
| HRecv (products : slice Product) (processStatus : string)  (* line 169 *)
| HReturn.

Inductive dependentPC :=
| DNone                     (* not started *)
| DStart                    (* line 155 *)
| DSend (r : slowResult)    (* line 157: [slowChan <- r] *)
| DReturn.

Record State := {
  hqueue : list event;
  hpc : handlerPC;
  dqueue : list event;
  dpc : dependentPC;
  w : response;
  trace : list (thread * event)
}.

Definition handlerSpan : string := "GetProductsHandler".

(** [http.Error(w, msg, code); span.SetAttributes(error); return], and the
    deferred [span.End()]. *)
Definition fail (s : State) (msg : string) (code : Z) (err : error) : State :=
  {| hqueue := [SpanSetAttributes handlerSpan "error" (AttrString err);
                SpanEnd handlerSpan];
     hpc := HReturn;
     dqueue := dqueue s; dpc := dpc s;
     w := http_Error (w s) msg code;
     trace := trace s |}.

(** Lines 171-187: the response is assembled and encoded. *)
Definition assemble (products : slice Product) (slow : slowResult)
    (processStatus : string) : Response :=
  {| Products := products; SlowStatus := status slow; SlowMessage := msg slow;
     ProcessStatus := processStatus |}.

Definition respond (w : response) (resp : Response) : response * list event :=
  let w := SetHeader "Content-Type" "application/json" w in
  let w := WriteHeader StatusOK w in
  match Encode w resp with
  | (w, Some err) =>
      (http_Error w ("Failed to encode response: " +++ err)
         StatusInternalServerError,
       [SpanSetAttributes handlerSpan "error" (AttrString err);
        SpanEnd handlerSpan])
  | (w, None) => (w, [SpanEnd handlerSpan])
  end.

(** The receive of line 169 meeting the send of line 157: [slowChan] has no
    buffer, so the two happen as one step, and only when both sides are at
    the channel. *)
Definition handoff (s : State) : option State :=
  match hqueue s, hpc s, dqueue s, dpc s with
  | [], HRecv products processStatus, [], DSend slow =>
      let '(w', evs) := respond (w s) (assemble products slow processStatus) in
      Some {| hqueue := evs; hpc := HReturn; dqueue := []; dpc := DReturn;
              w := w'; trace := trace s |}
  | _, _, _, _ => None
  end.

Definition stepHandler (W : World) (s : State) : option State :=
  match hqueue s with
  | e :: rest =>
      Some {| hqueue := rest; hpc := hpc s; dqueue := dqueue s; dpc := dpc s;
              w := w s; trace := trace s ++ [(Handler, e)] |}
  | [] =>
      match hpc s with
      | HStart =>
          let '(evs, err) := validateRequest (validateDraw W) in
          Some {| hqueue := SpanStart handlerSpan :: evs; hpc := HValidated err;
                  dqueue := dqueue s; dpc := dpc s; w := w s; trace := trace s |}
      | HValidated (Some err) => Some (fail s err StatusBadRequest err)
      | HValidated None =>
          let '(evs, (products, err)) := GetAllProducts (DB W) in
          Some {| hqueue := evs; hpc := HFetched products err;
                  dqueue := dqueue s; dpc := dpc s; w := w s; trace := trace s |}
      | HFetched _ (Some err) =>
          Some (fail s ("Failed to fetch products: " +++ err)
                  StatusInternalServerError err)
      | HFetched products None =>
          (* [go func() {...}()], then the call of processData *)
          let '(evs, (processStatus, err)) :=
            processData (processDraw W) products in
          Some {| hqueue := evs; hpc := HProcessed products processStatus err;
                  dqueue := []; dpc := DStart; w := w s; trace := trace s |}
      | HProcessed _ _ (Some err) =>
          Some (fail s ("Failed to process data: " +++ err)
                  StatusInternalServerError err)
      | HProcessed products processStatus None =>
          Some {| hqueue := []; hpc := HRecv products processStatus;
                  dqueue := dqueue s; dpc := dpc s; w := w s; trace := trace s |}
      | HRecv _ _ => handoff s
      | HReturn => None
      end
  end.

Definition stepDependent (W : World) (s : State) : option State :=
  match dqueue s with
  | e :: rest =>
      Some {| hqueue := hqueue s; hpc := hpc s; dqueue := rest; dpc := dpc s;
              w := w s; trace := trace s ++ [(Dependent, e)] |}
  | [] =>
      match dpc s with
      | DNone => None
      | DStart =>
          let '(evs, recorder) := HandleSlowAPI (now W) NewRecorder in
          Some {| hqueue := hqueue s; hpc := hpc s; dqueue := evs;
                  dpc := DSend {| status := Code recorder; msg := Body recorder |};
                  w := w s; trace := trace s |}
      | DSend _ => handoff s
      | DReturn => None
      end
  end.

(** One step of the unit of work the scheduler picks; [None] when that unit
    of work is blocked or has returned. *)
Definition step (W : World) (t : thread) (s : State) : option State :=
  match t with
  | Handler => stepHandler W s
  | Dependent => stepDependent W s
  end.

Definition init : State :=
  {| hqueue := []; hpc := HStart; dqueue := []; dpc := DNone;
     w := newResponse; trace := [] |}.

(** A schedule names the unit of work to run at each turn; a turn given to
    one that cannot move is lost. *)
Definition turn (W : World) (s : State) (t : thread) : State :=
  match step W t s with
  | Some s' => s'
  | None => s
  end.

Definition exec (W : World) (sched : list thread) (s : State) : State :=
  fold_left (turn W) sched s.

Definition reachable (W : World) (s : State) : Prop :=
  exists sched, exec W sched init = s.

Definition returned (s : State) : bool :=
  match hpc s, hqueue s with
  | HReturn, [] => true
  | _, _ => false
  end.

Definition dependentReturned (s : State) : bool :=
  match dpc s, dqueue s with
  | DReturn, [] => true
  | _, _ => false
  end.

(** A schedule that lets every request finish: the handler runs up to the
    receive, the dependent call runs up to the send, the handler goes on. *)
Definition handlerFirst : list thread :=
  repeat Handler 20 ++ repeat Dependent 3 ++ repeat Handler 4.

(** The response the client gets and everything that happened. *)
Definition GetProductsHandler (W : World) : State :=
  exec W handlerFirst init.

(** ** What one request computes, stage by stage *)

Definition validateErr (W : World) : option error :=
  snd (validateRequest (validateDraw W)).

Definition fetchedProducts (W : World) : slice Product :=
  fst (snd (GetAllProducts (DB W))).

Definition fetchErr (W : World) : option error :=
  snd (snd (GetAllProducts (DB W))).

Definition processedStatus (W : World) : string :=
  fst (snd (processData (processDraw W) (fetchedProducts W))).

Definition processErr (W : World) : option error :=
  snd (snd (processData (processDraw W) (fetchedProducts W))).

(** What the dependent call leaves in its recorder. *)
Definition slowRecorder (W : World) : ResponseRecorder :=
  snd (HandleSlowAPI (now W) NewRecorder).

Definition slowOf (W : World) : slowResult :=
  {| status := Code (slowRecorder W); msg := Body (slowRecorder W) |}.

(** The request gets as far as assembling a response. *)
Definition reachesAssembly (W : World) : Prop :=
  validateErr W = None /\ fetchErr W = None /\ processErr W = None.

Definition assembled (W : World) : Response :=
  assemble (fetchedProducts W) (slowOf W) (processedStatus W).

Definition finalResponse (W : World) : response :=
  match validateErr W with
  | Some err => http_Error newResponse err StatusBadRequest
  | None =>
      match fetchErr W with
      | Some err =>
          http_Error newResponse ("Failed to fetch products: " +++ err)
            StatusInternalServerError
      | None =>
          match processErr W with
          | Some err =>
              http_Error newResponse ("Failed to process data: " +++ err)
                StatusInternalServerError
          | None => fst (respond newResponse (assembled W))
          end
      end
  end.

(** The events of one unit of work, in the order it emitted them. *)
Definition thread_eqb (a b : thread) : bool :=
  match a, b with
  | Handler, Handler | Dependent, Dependent => true
  | _, _ => false
  end.

Definition eventsOf (t : thread) (tr : list (thread * event)) : list event :=
  map snd (filter (fun x => thread_eqb (fst x) t) tr).

Definition by_ (t : thread) (evs : list event) : list (thread * event) :=
  map (pair t) evs.

Definition failEvents (err : error) : list event :=
  [SpanSetAttributes handlerSpan "error" (AttrString err); SpanEnd handlerSpan].

(** The handler's events up to the end of the fetch. *)
Definition fetchScript (W : World) : list event :=
  (SpanStart handlerSpan :: fst (validateRequest (validateDraw W)))
    ++ fst (GetAllProducts (DB W)).

Definition processScript (W : World) : list event :=
  fst (processData (processDraw W) (fetchedProducts W)).

(** Everything the handler emits in a request that runs to its return. *)
Definition handlerScript (W : World) : list event :=
  let validated := SpanStart handlerSpan :: fst (validateRequest (validateDraw W)) in
  match validateErr W with
  | Some err => validated ++ failEvents err
  | None =>
      match fetchErr W with
      | Some err => fetchScript W ++ failEvents err
      | None =>
          match processErr W with
          | Some err => fetchScript W ++ processScript W ++ failEvents err
          | None =>
              fetchScript W ++ processScript W
                ++ snd (respond newResponse (assembled W))
          end
      end
  end.

(** The handler's events, emitted or queued, by where it is. *)
Definition scriptAt (W : World) (pc : handlerPC) : list event :=
  match pc with
  | HStart => []
  | HValidated _ => SpanStart handlerSpan :: fst (validateRequest (validateDraw W))
  | HFetched _ _ => fetchScript W
  | HProcessed _ _ _ | HRecv _ _ => fetchScript W ++ processScript W
  | HReturn => handlerScript W
  end.

Definition dependentScriptAt (W : World) (pc : dependentPC) : list event :=
  match pc with
  | DNone | DStart => []
  | DSend _ | DReturn => fst (HandleSlowAPI (now W) NewRecorder)
  end.

(** What holds of every state a request can be in, under any schedule. *)
Record Inv (W : World) (s : State) : Prop := {
  inv_pc :
    match hpc s with
    | HStart => w s = newResponse /\ dpc s = DNone
    | HValidated e =>
        e = validateErr W /\ w s = newResponse /\ dpc s = DNone
    | HFetched p e =>
        validateErr W = None /\ p = fetchedProducts W /\ e = fetchErr W
        /\ w s = newResponse /\ dpc s = DNone
    | HProcessed p st e =>
        validateErr W = None /\ fetchErr W = None
        /\ p = fetchedProducts W /\ st = processedStatus W /\ e = processErr W
        /\ w s = newResponse /\ dpc s <> DNone /\ dpc s <> DReturn
    | HRecv p st =>
        reachesAssembly W
        /\ p = fetchedProducts W /\ st = processedStatus W
        /\ w s = newResponse /\ hqueue s = []
        /\ dpc s <> DNone /\ dpc s <> DReturn
    | HReturn =>
        w s = finalResponse W
        /\ match dpc s with
           | DNone =>
               validateErr W <> None
               \/ (validateErr W = None /\ fetchErr W <> None)
           | DStart | DSend _ =>
               validateErr W = None /\ fetchErr W = None /\ processErr W <> None
           | DReturn => reachesAssembly W
           end
    end;
  inv_dpc :
    match dpc s with
    | DNone | DStart | DReturn => dqueue s = []
    | DSend r => r = slowOf W
    end;
  inv_handler :
    eventsOf Handler (trace s) ++ hqueue s = scriptAt W (hpc s);
  inv_dependent :
    eventsOf Dependent (trace s) ++ dqueue s = dependentScriptAt W (dpc s);
  inv_order :
    match dpc s with
    | DNone => trace s = by_ Handler (eventsOf Handler (trace s))
    | _ => exists tail, trace s = by_ Handler (fetchScript W) ++ tail
    end
}.

(** ** Reading traces and bodies *)

(** Every element of [l] that satisfies [P] has an [a] somewhere before it. *)
Definition precedes {A} (a : A) (P : A -> Prop) (l : list A) : Prop :=
  forall l1 x l2, l = l1 ++ x :: l2 -> P x -> In a l1.

Definition isSpanStart (name : string) (e : event) : bool :=
  match e with
  | SpanStart n => String.eqb n name
  | _ => false
  end.

Definition isSpanEnd (name : string) (e : event) : bool :=
  match e with
  | SpanEnd n => String.eqb n name
  | _ => false
  end.

Definition isDBQuery (e : event) : bool :=
  match e with
  | DBQuery _ => true
  | _ => false
  end.

Definition count (P : event -> bool) (tr : list (thread * event)) : nat :=
  List.length (filter P (map snd tr)).

Definition spanStarts (name : string) := count (isSpanStart name).
Definition spanEnds (name : string) := count (isSpanEnd name).

(** Calls of GetAllProducts, which opens its span first thing, and queries
    sent to the store. *)
Definition fetchCalls := spanStarts "GetAllProducts".
Definition storeQueries := count isDBQuery.

(** The dependent call has started, or the processing stage has. *)
Definition startsFanOut (x : thread * event) : Prop :=
  fst x = Dependent \/ snd x = SpanStart "processData".

Definition containsText (sub : string) (b : list payload) : Prop :=
  exists pre post, In (Text (pre +++ sub +++ post)) b.

(** A product [marshalProduct] accepts. *)
Definition encodable (p : Product) : bool :=
  match Price p with
  | S754_nan | S754_infinity _ => false
  | _ => true
  end.

(** No unit of work can move. *)
Definition stuck (W : World) (s : State) : Prop :=
  forall t, step W t s = None.

(** ** Sample requests *)

Definition half : float32 := S754_finite false 8388608 (-24).       (* 0.5 *)
Definition sixteenth : float32 := S754_finite false 8388608 (-27).  (* 0.0625 *)

Definition widget : Product :=
  {| ID := 1; Name := "widget"; Quantity := 3;
     Price := S754_finite false 12582912 (-23) |}.                  (* 1.5 *)

Definition gadget : Product :=
  {| ID := 2; Name := "gadget"; Quantity := 7;
     Price := S754_finite false 10485760 (-22) |}.                  (* 2.5 *)

Definition unpriced : Product :=
  {| ID := 3; Name := "sample"; Quantity := 1; Price := S754_nan |}.

Definition table (data : list (error + Product)) (err : option error) : sqlDB :=
  {| QueryContext := fun _ => inr {| rows_data := data; rows_Err := err |} |}.

Definition clock : string := "2025-01-01T00:00:00Z".

Definition request (db : option sqlDB) (v p : float32) : World :=
  {| DB := db; validateDraw := v; processDraw := p; now := clock |}.

Definition worldTwo : World :=
  request (Some (table [inr widget; inr gadget] None)) half half.

Definition worldEmpty : World := request (Some (table [] None)) half half.

Definition worldUnpriced : World :=
  request (Some (table [inr unpriced] None)) half half.

Definition worldNoDB : World := request None half half.

Definition worldInvalid : World :=
  request (Some (table [inr widget] None)) sixteenth half.

Definition worldProcessFails : World :=
  request (Some (table [inr widget] None)) half sixteenth.

Definition scanFailure : sqlDB :=
  table [inr widget; inl "converting NULL to int is unsupported"; inr gadget] None.

Definition cursorFailure : sqlDB :=
  table [inr widget; inr gadget] (Some "invalid connection").

Definition worldScanFails : World := request (Some scanFailure) half half.

(** Schedules that stop the handler of [worldTwo] right before it starts
    the goroutine, and at the receive. *)
Definition beforeFanOut : list thread := repeat Handler 11.
Definition atReceive : list thread := repeat Handler 17.

(** ** Statements about every schedule *)

(** The request is answered, and whatever the schedule, the state the
    handler returns in satisfies [P]. *)
Definition answers (W : World) (P : State -> Prop) : Prop :=
  returned (GetProductsHandler W) = true
  /\ forall s, reachable W s -> returned s = true -> P s.

(** ** Runs in which every turn moves *)

(** [run] follows a schedule as long as the unit of work it names can
    move, and gives up at the first turn that would be lost. *)
Fixpoint run (W : World) (sched : list thread) (s : State) : option State :=
  match sched with
  | [] => Some s
  | t :: rest =>
      match step W t s with
      | Some s' => run W rest s'
      | None => None
      end
  end.

(** An upper bound on the steps a request has left. *)
Definition handlerWeight (pc : handlerPC) : nat :=
  match pc with
  | HStart => 23
  | HValidated _ => 17
  | HFetched _ _ => 11
  | HProcessed _ _ _ => 4
  | HRecv _ _ => 3
  | HReturn => 0
  end.

Definition dependentWeight (pc : dependentPC) : nat :=
  match pc with
  | DStart => 2
  | _ => 0
  end.

Definition stepsLeft (s : State) : nat :=
  (List.length (hqueue s) + handlerWeight (hpc s)
   + List.length (dqueue s) + dependentWeight (dpc s))%nat.

(** ** More ways to read a response and a trace *)

(** The object [marshalProduct] writes for a record it accepts. *)
Definition productJSON (p : Product) : json :=
  JObject [("id", JInt (Z.of_N (ID p)));
           ("name", JString (Name p));
           ("quantity", JInt (Quantity p));
           ("price", JFloat (Price p))].

Definition productsJSON (s : slice Product) : json :=
  match s with
  | None => JNull
  | Some l => JArray (map productJSON l)
  end.

(** The headers [http.Error] sends. *)
Definition textPlain : Header :=
  [("Content-Type", "text/plain; charset=utf-8");
   ("X-Content-Type-Options", "nosniff")].

Definition applicationJSON : Header := [("Content-Type", "application/json")].

Definition isRowsClose (e : event) : bool :=
  match e with
  | RowsClose => true
  | _ => false
  end.

(** [span.SetAttributes(attribute.String("error", ...))] on the handler's
    own span. *)
Definition isHandlerError (e : event) : bool :=
  match e with
  | SpanSetAttributes n k _ => String.eqb n handlerSpan && String.eqb k "error"
  | _ => false
  end.

(** ** InitDB *)

(** [database/sql] as InitDB uses it: [sql.Open(driverName, dsn)] and
    [DB.Ping]. *)
Record Driver := {
  sql_Open : string -> string -> error + sqlDB;
  Ping : sqlDB -> option error
}.

(** The package variable and what the package has printed. *)
Record Package := {
  pkg_DB : option sqlDB;
  pkg_stdout : list string
}.

Definition dataSourceName (username password : string) : string :=
  username +++ ":" +++ password +++ "@tcp(127.0.0.1:3306)/inventory?charset=utf8".

(** [DB, err = sql.Open(...)] assigns the package variable on both
    outcomes; [sql.Open] returns a nil handle with an error. *)
Definition InitDB (drv : Driver) (username password : string) (pkg : Package)
  : Package * option error :=
  let dsn := dataSourceName username password in
  match sql_Open drv "mysql" dsn with
  | inl err =>
      ({| pkg_DB := None; pkg_stdout := pkg_stdout pkg |},
       Some ("error opening database: " +++ err))
  | inr db =>
      match Ping drv db with
      | Some err =>
          ({| pkg_DB := Some db; pkg_stdout := pkg_stdout pkg |},
           Some ("error connecting to the database: " +++ err))
      | None =>
          ({| pkg_DB := Some db;
              pkg_stdout := pkg_stdout pkg
                            ++ ["Successfully connected to the MySQL database!"] |},
           None)
      end
  end.

Definition notInitialized : error :=
  "database connection not initialized; call InitDB first".

(** ** The process environment, NewResource and the entry points *)

Definition Environ := list (string * string).

(** [os.Getenv] gives the empty string for a variable that is not set. *)
Definition Getenv (k : string) (env : Environ) : string :=
  match assoc k env with
  | Some v => v
  | None => ""
  end.

Definition Setenv (k v : string) (env : Environ) : Environ := (k, v) :: env.

(** The local [serviceName] of NewResource. *)
Definition serviceName (env : Environ) : string :=
  let name := Getenv "SERVICE_NAME" env in
  if String.eqb name "" then "otel-go-app-sample" else name.

(** The attributes NewResource hands to [resource.NewWithAttributes]; the
    merge with [resource.Default()] is the SDK's. *)
Definition NewResource (env : Environ) : list (string * string) :=
  [("service.name", serviceName env);
   ("service.version", "0.1.0");
   ("environment", "demo")].

(** [endpoint] of InitProvider and [port] of main. *)
Definition collectorEndpoint (env : Environ) : string :=
  let endpoint := Getenv "OTEL_EXPORTER_OTLP_ENDPOINT" env in
  if String.eqb endpoint "" then "127.0.0.1:4317" else endpoint.

Definition listenAddr (env : Environ) : string :=
  let port := Getenv "PORT" env in
  ":" +++ (if String.eqb port "" then "8883" else port).

(** Both [main] functions start with
    [os.Setenv("SERVICE_NAME", "otel-go-app-sample-kienlt")]; nothing later
    writes the environment. *)
Definition mainEnviron (env : Environ) : Environ :=
  Setenv "SERVICE_NAME" "otel-go-app-sample-kienlt" env.

(** ** Package otelsetup: HandleRequest and the calls it makes *)

Module otelsetup.

(** A call either returns or panics. *)
Inductive result (A : Type) :=
| Ok (a : A)
| Panic.
Arguments Ok {A} a.
Arguments Panic {A}.

(** What the two calls do besides computing.  The span that the
    instrumented transport opens around the request is the library's. *)
Inductive call :=
| SpanStartWith (span : string) (attrs : list (string * string))
| SpanRecordError (span : string) (err : error)
| SpanSetStatusError (span : string) (description : string)
| SpanEnds (span : string)
| Sleeps (ms : Z)
| ClientDo (method url : string)
| ReadAll
| BodyClose.

Record Env := {
  tracerSet : bool;                  (* the package variable tracer is non-nil *)
  unixNano : Z;                      (* time.Now().UnixNano() in DatabaseCall *)
  httpbin : error + option error;    (* client.Do fails, or io.ReadAll does or not *)
  requestTime : string               (* time.Now().Format(time.RFC3339) *)
}.

Definition databaseError : error := "database connection error".

(** A method call on the nil interface [tracer] panics. *)
Definition DatabaseCall (e : Env) : result (list call * option error) :=
  let span := "database.query" in
  if tracerSet e then
    let start :=
      SpanStartWith span [("db.system", "postgresql"); ("db.name", "users");
                          ("db.statement", "SELECT * FROM users")] in
    if Z.rem (unixNano e) 10 =? 0
    then Ok ([start; Sleeps 100;
              SpanRecordError span databaseError;
              SpanSetStatusError span databaseError;
              SpanEnds span],
             Some databaseError)
    else Ok ([start; Sleeps 100; SpanEnds span], None)
  else Panic.

(** The deferred [resp.Body.Close()] runs before the deferred
    [span.End()]. *)
Definition ExternalAPICall (e : Env) : result (list call * option error) :=
  let span := "external.api.request" in
  if tracerSet e then
    let start :=
      SpanStartWith span [("api.name", "payment-service");
                          ("api.endpoint", "/api/v1/process")] in
    let do := ClientDo "GET" "https://httpbin.org/get" in
    match httpbin e with
    | inl err =>
        Ok ([start; do; SpanRecordError span err; SpanSetStatusError span err;
             SpanEnds span],
            Some err)
    | inr (Some err) =>
        Ok ([start; do; ReadAll; SpanRecordError span err;
             SpanSetStatusError span err; BodyClose; SpanEnds span],
            Some err)
    | inr None =>
        Ok ([start; do; ReadAll; Sleeps 200; BodyClose; SpanEnds span], None)
    end
  else Panic.

Definition HandleRequest {W} `{ResponseWriter W} (e : Env) (w : W)
  : result (list call * W) :=
  match DatabaseCall e with
  | Panic => Panic
  | Ok (calls, Some err) =>
      Ok (calls,
          http_Error w ("Database error: " +++ err) StatusInternalServerError)
  | Ok (calls, None) =>
      match ExternalAPICall e with
      | Panic => Panic
      | Ok (calls', Some err) =>
          Ok (calls ++ calls',
              http_Error w ("External API error: " +++ err)
                StatusInternalServerError)
      | Ok (calls', None) =>
          Ok (calls ++ calls',
              Write ("Request processed successfully at "
                     +++ requestTime e +++ newline)
                (WriteHeader StatusOK w))
      end
  end.

Definition starts (span : string) (c : call) : bool :=
  match c with
  | SpanStartWith n _ => String.eqb n span
  | _ => false
  end.

Definition ends (span : string) (c : call) : bool :=
  match c with
  | SpanEnds n => String.eqb n span
  | _ => false
  end.

Definition recordsError (span : string) (c : call) : bool :=
  match c with
  | SpanRecordError n _ => String.eqb n span
  | _ => false
  end.

Definition isRecordError (c : call) : bool :=
  match c with
  | SpanRecordError _ _ => true
  | _ => false
  end.

Definition isClientDo (c : call) : bool :=
  match c with
  | ClientDo _ _ => true
  | _ => false
  end.

Definition isBodyClose (c : call) : bool :=
  match c with
  | BodyClose => true
  | _ => false
  end.

Definition times (P : call -> bool) (calls : list call) : nat :=
  List.length (filter P calls).

End otelsetup.

(** ** More sample inputs *)

Definition goodDriver : Driver :=
  {| sql_Open := fun _ _ => inr (table [inr widget] None);
     Ping := fun _ => None |}.

Definition unreachableDriver : Driver :=
  {| sql_Open := fun _ _ => inr (table [] (Some "driver: bad connection"));
     Ping := fun _ => Some "dial tcp 127.0.0.1:3306: connect: connection refused" |}.

Definition noDriver : Driver :=
  {| sql_Open := fun _ _ => inl "sql: unknown driver";
     Ping := fun _ => None |}.

Definition freshPackage : Package := {| pkg_DB := None; pkg_stdout := [] |}.

Definition queryFailure : sqlDB :=
  {| QueryContext := fun _ => inl "Error 1146: Table 'inventory.products' doesn't exist" |}.

Definition healthyEnv : otelsetup.Env :=
  {| otelsetup.tracerSet := true; otelsetup.unixNano := 1735689600000000001;
     otelsetup.httpbin := inr None; otelsetup.requestTime := clock |}.

Definition unluckyEnv : otelsetup.Env :=
  {| otelsetup.tracerSet := true; otelsetup.unixNano := 1735689600000000000;
     otelsetup.httpbin := inr None; otelsetup.requestTime := clock |}.

Definition offlineEnv : otelsetup.Env :=
  {| otelsetup.tracerSet := true; otelsetup.unixNano := 1735689600000000001;
     otelsetup.httpbin := inl "dial tcp: lookup httpbin.org: no such host";
     otelsetup.requestTime := clock |}.

(** A schedule that lets the dependent call finish before the processing
    stage has emitted anything. *)
Definition dependentFirst : list thread :=
  repeat Handler 12 ++ repeat Dependent 3 ++ repeat Handler 12.

(** * Properties *)

(** The stages stay folded under [simpl] and [cbn]. *)
Arguments validateRequest : simpl never.
Arguments GetAllProducts : simpl never.
Arguments processData : simpl never.
Arguments HandleSlowAPI : simpl never.
Arguments http_Error : simpl never.
Arguments respond : simpl never.
Arguments eventsOf : simpl never.
Arguments by_ : simpl never.

Ltac sim :=
  cbn [hpc hqueue dpc dqueue w trace scriptAt dependentScriptAt fail app] in *.

Lemma eventsOf_app t a b : eventsOf t (a ++ b) = eventsOf t a ++ eventsOf t b.
Proof. unfold eventsOf. now rewrite filter_app, map_app. Qed.

Lemma eventsOf_by t evs : eventsOf t (by_ t evs) = evs.
Proof.
  unfold eventsOf, by_. induction evs as [|e evs IH]; simpl; [easy|].
  destruct t; simpl; now rewrite IH.
Qed.

Lemma by_app t a b : by_ t (a ++ b) = by_ t a ++ by_ t b.
Proof. apply map_app. Qed.

Lemma validate_eta W :
  validateRequest (validateDraw W)
  = (fst (validateRequest (validateDraw W)), validateErr W).
Proof. unfold validateErr. now destruct (validateRequest _). Qed.

Lemma fetch_eta W :
  GetAllProducts (DB W)
  = (fst (GetAllProducts (DB W)), (fetchedProducts W, fetchErr W)).
Proof.
  unfold fetchedProducts, fetchErr. now destruct (GetAllProducts _) as [? [? ?]].
Qed.

Lemma process_eta W :
  processData (processDraw W) (fetchedProducts W)
  = (processScript W, (processedStatus W, processErr W)).
Proof.
  unfold processScript, processedStatus, processErr.
  now destruct (processData _ _) as [? [? ?]].
Qed.

Lemma slow_eta W :
  HandleSlowAPI (now W) NewRecorder
  = (fst (HandleSlowAPI (now W) NewRecorder), slowRecorder W).
Proof. unfold slowRecorder. now destruct (HandleSlowAPI _ _). Qed.

Lemma respond_eta w0 r : respond w0 r = (fst (respond w0 r), snd (respond w0 r)).
Proof. now destruct (respond w0 r). Qed.

Lemma Inv_init W : Inv W init.
Proof. constructor; simpl; auto. Qed.

Lemma Inv_fail W s msg code err :
  Inv W s -> hqueue s = [] -> hpc s <> HReturn ->
  http_Error newResponse msg code = finalResponse W ->
  scriptAt W (hpc s) ++ failEvents err = handlerScript W ->
  match dpc s with
  | DNone => validateErr W <> None \/ (validateErr W = None /\ fetchErr W <> None)
  | DStart | DSend _ => validateErr W = None /\ fetchErr W = None /\ processErr W <> None
  | DReturn => reachesAssembly W
  end ->
  w s = newResponse ->
  Inv W (fail s msg code err).
Proof.
  intros [Hpc Hd Hh Hdep Hord] Hq Hne Hw Hs Hcase Hw0.
  constructor; sim; auto.
  - rewrite Hw0. auto.
  - rewrite Hq, app_nil_r in Hh. rewrite <- Hs, <- Hh. reflexivity.
Qed.

Lemma Inv_handoff W s s' : Inv W s -> handoff s = Some s' -> Inv W s'.
Proof.
  intros [Hpc Hd Hh Hdep Hord]. unfold handoff.
  destruct s as [hq pc dq dp w0 tr]; sim.
  destruct hq; [|discriminate]. destruct pc; try discriminate.
  destruct dq; [|discriminate]. destruct dp; try discriminate.
  rewrite respond_eta. intros [= <-].
  destruct Hpc as (Hra & -> & -> & -> & _ & _ & _). subst r.
  pose proof Hra as (Ev & Ef & Ep).
  constructor; sim; auto.
  - split; auto. unfold finalResponse. rewrite Ev, Ef, Ep. reflexivity.
  - rewrite app_nil_r in Hh. rewrite Hh. unfold handlerScript.
    rewrite Ev, Ef, Ep. now rewrite app_assoc.
Qed.

Lemma Inv_stepHandler W s s' : Inv W s -> stepHandler W s = Some s' -> Inv W s'.
Proof.
  intros HI. unfold stepHandler.
  destruct (hqueue s) as [|e rest] eqn:Hq.
  - destruct (hpc s) eqn:Hp.
    + rewrite validate_eta. intros [= <-].
      destruct HI as [Hpc Hd Hh Hdep Hord]. rewrite Hp in *. rewrite Hq in *.
      destruct Hpc as [Hw Hdn].
      constructor; sim; auto.
      * rewrite app_nil_r in Hh. rewrite Hh. reflexivity.
    + destruct err as [err|].
      * intros [= <-].
        pose proof (inv_pc HI) as Hpc. rewrite Hp in Hpc. destruct Hpc as (Ev & Hw & Hdn).
        apply Inv_fail; auto; try congruence; rewrite ?Hp, ?Hdn.
        -- unfold finalResponse. now rewrite <- Ev.
        -- unfold handlerScript. now rewrite <- Ev.
        -- left; congruence.
      * rewrite fetch_eta. intros [= <-].
        destruct HI as [Hpc Hd Hh Hdep Hord]. rewrite Hp in *. rewrite Hq in *.
        destruct Hpc as (Ev & Hw & Hdn).
        constructor; sim; auto.
        rewrite app_nil_r in Hh. rewrite Hh. reflexivity.
    + destruct err as [err|].
      * intros [= <-].
        pose proof (inv_pc HI) as Hpc. rewrite Hp in Hpc.
        destruct Hpc as (Ev & Hprod & Ef & Hw & Hdn).
        apply Inv_fail; auto; try congruence; rewrite ?Hp, ?Hdn.
        -- unfold finalResponse. now rewrite Ev, <- Ef.
        -- unfold handlerScript. now rewrite Ev, <- Ef.
        -- right; split; congruence.
      * destruct HI as [Hpc Hd Hh Hdep Hord]. rewrite Hp in *. rewrite Hq in *.
        destruct Hpc as (Ev & Hprod & Ef & Hw & Hdn). subst products.
        rewrite process_eta. intros [= <-].
        rewrite Hdn in *. rewrite app_nil_r in Hh.
        constructor; sim; auto.
        -- repeat split; auto; congruence.
        -- now rewrite Hh.
        -- rewrite Hd in Hdep. exact Hdep.
        -- exists []. rewrite app_nil_r. sim. rewrite <- Hh. exact Hord.
    + destruct err as [err|].
      * intros [= <-].
        pose proof (inv_pc HI) as Hpc. rewrite Hp in Hpc.
        destruct Hpc as (Ev & Ef & Hprod & Hst & Ep & Hw & Hdn & Hdr).
        apply Inv_fail; auto; try congruence; rewrite ?Hp.
        -- unfold finalResponse. now rewrite Ev, Ef, <- Ep.
        -- unfold handlerScript. rewrite Ev, Ef, <- Ep. now rewrite app_assoc.
        -- destruct (dpc s); try congruence; repeat split; congruence.
      * intros [= <-].
        destruct HI as [Hpc Hd Hh Hdep Hord]. rewrite Hp in *. rewrite Hq in *.
        destruct Hpc as (Ev & Ef & Hprod & Hst & Ep & Hw & Hdn & Hdr).
        constructor; sim; auto.
        repeat split; auto.
    + apply Inv_handoff; auto.
    + discriminate.
  - intros [= <-]. destruct HI as [Hpc Hd Hh Hdep Hord]. rewrite Hq in *.
    constructor; sim; auto.
    + destruct (hpc s); auto. destruct Hpc as (_ & _ & _ & _ & [=] & _).
    + rewrite eventsOf_app, <- app_assoc. exact Hh.
    + rewrite eventsOf_app. unfold eventsOf at 2. simpl. now rewrite app_nil_r.
    + destruct (dpc s).
      * rewrite eventsOf_app, by_app, <- Hord. reflexivity.
      * destruct Hord as [tl ->]. exists (tl ++ [(Handler, e)]). now rewrite app_assoc.
      * destruct Hord as [tl ->]. exists (tl ++ [(Handler, e)]). now rewrite app_assoc.
      * destruct Hord as [tl ->]. exists (tl ++ [(Handler, e)]). now rewrite app_assoc.
Qed.

Lemma Inv_stepDependent W s s' :
  Inv W s -> stepDependent W s = Some s' -> Inv W s'.
Proof.
  intros HI. unfold stepDependent.
  destruct (dqueue s) as [|e rest] eqn:Hq.
  - destruct (dpc s) eqn:Hp; try discriminate.
    + rewrite slow_eta. intros [= <-].
      destruct HI as [Hpc Hd Hh Hdep Hord]. rewrite Hp in *. rewrite Hq in *.
      constructor; sim; auto.
      * destruct (hpc s); auto; intuition (try discriminate; try congruence).
      * rewrite app_nil_r in Hdep. now rewrite Hdep.
    + apply Inv_handoff; auto.
  - intros [= <-]. destruct HI as [Hpc Hd Hh Hdep Hord]. rewrite Hq in *.
    constructor; sim; auto.
    + destruct (dpc s); auto; discriminate.
    + rewrite eventsOf_app. unfold eventsOf at 2. simpl. now rewrite app_nil_r.
    + rewrite eventsOf_app, <- app_assoc. exact Hdep.
    + destruct (dpc s); try discriminate.
      destruct Hord as [tl ->]. exists (tl ++ [(Dependent, e)]). now rewrite app_assoc.
Qed.

Lemma Inv_turn W s t : Inv W s -> Inv W (turn W s t).
Proof.
  intros HI. unfold turn. destruct (step W t s) as [s'|] eqn:E; auto.
  destruct t; [eapply Inv_stepHandler | eapply Inv_stepDependent]; eauto.
Qed.

Lemma Inv_exec W sched : forall s, Inv W s -> Inv W (exec W sched s).
Proof.
  unfold exec. induction sched as [|t sched IH]; intros s HI; simpl; auto.
  apply IH, Inv_turn, HI.
Qed.

Lemma Inv_reachable W s : reachable W s -> Inv W s.
Proof. intros [sched <-]. apply Inv_exec, Inv_init. Qed.


(** *** The shapes of the stages' results *)

Lemma validate_cases d :
  validateRequest d
  = ([SpanStart "validateRequest"; TimeSleep 1000;
      SpanSetAttributes "validateRequest" "error" (AttrString "validation failed");
      SpanEnd "validateRequest"], Some "request validation failed")
  \/ validateRequest d
     = ([SpanStart "validateRequest"; TimeSleep 1000; SpanEnd "validateRequest"],
        None).
Proof. unfold validateRequest, withSpan. destruct (SFltb d f32_0_2); auto. Qed.

Lemma process_cases d p :
  processData d p
  = ([SpanStart "processData"; TimeSleep 1500;
      SpanSetAttributes "processData" "error" (AttrString "processing failed");
      SpanEnd "processData"], ("failed", Some "data processing failed"))
  \/ processData d p
     = ([SpanStart "processData"; TimeSleep 1500;
         SpanSetAttributes "processData" "processed_count" (AttrInt (len p));
         SpanEnd "processData"], ("success", None)).
Proof. unfold processData, withSpan. destruct (SFltb d f32_0_3); auto. Qed.

Lemma fetch_cases db :
  (db = None /\ exists a err,
      GetAllProducts db
      = ([SpanStart "GetAllProducts"; SpanSetAttributes "GetAllProducts" "error" a;
          SpanEnd "GetAllProducts"; SpanEnd "GetAllProducts"],
         (None, Some err)))
  \/ (exists a err,
      GetAllProducts db
      = ([SpanStart "GetAllProducts"; DBQuery query;
          SpanSetAttributes "GetAllProducts" "error" a; SpanEnd "GetAllProducts"],
         (None, Some err)))
  \/ (exists a err,
      GetAllProducts db
      = ([SpanStart "GetAllProducts"; DBQuery query;
          SpanSetAttributes "GetAllProducts" "error" a; RowsClose;
          SpanEnd "GetAllProducts"],
         (None, Some err)))
  \/ (exists p,
      GetAllProducts db
      = ([SpanStart "GetAllProducts"; DBQuery query;
          SpanSetAttributes "GetAllProducts" "product_count" (AttrInt (len p));
          RowsClose; SpanEnd "GetAllProducts"],
         (p, None))).
Proof.
  unfold GetAllProducts, withSpan. destruct db as [db|].
  - destruct (QueryContext db query) as [err|rows].
    + right; left. do 2 eexists; reflexivity.
    + destruct (scanRows (rows_data rows) None) as [err|p].
      * right; right; left. do 2 eexists; reflexivity.
      * destruct (rows_Err rows) as [err|].
        -- right; right; left. do 2 eexists; reflexivity.
        -- right; right; right. eexists; reflexivity.
  - left. split; [reflexivity|]. do 2 eexists; reflexivity.
Qed.

Lemma respond_cases w0 r :
  (exists w', respond w0 r = (w', [SpanEnd handlerSpan]))
  \/ (exists w' a,
        respond w0 r
        = (w', [SpanSetAttributes handlerSpan "error" a; SpanEnd handlerSpan])).
Proof.
  unfold respond. destruct (Encode _ r) as [w' [err|]]; [right; do 2 eexists | left; eexists]; reflexivity.
Qed.

Lemma slow_result nw :
  HandleSlowAPI nw NewRecorder
  = ([TimeSleep 2000],
     {| rec_HeaderMap := []; rec_wroteHeader := true; Code := 200;
        Body := "Slow API response at " +++ nw +++ newline |}).
Proof. reflexivity. Qed.


Lemma exec_cons W t r s : exec W (t :: r) s = exec W r (turn W s t).
Proof. reflexivity. Qed.

Lemma exec_nil W s : exec W [] s = s.
Proof. reflexivity. Qed.

Ltac stage_eqs :=
  repeat match goal with
    | E : validateRequest _ = _ |- _ => rewrite E
    | E : GetAllProducts _ = _ |- _ => rewrite E
    | E : processData _ _ = _ |- _ => rewrite E
    | |- context [respond ?w0 ?r] =>
        let E := fresh "E" in
        destruct (respond_cases w0 r) as [(? & E)|(? & ? & E)]; rewrite E; clear E
    end;
  rewrite ?slow_result.

Ltac run1 :=
  lazymatch goal with
  | |- context [exec _ (_ :: _) (Build_State _ _ _ _ _ _)] => idtac
  end;
  rewrite exec_cons;
  repeat (progress (cbv [turn step stepHandler stepDependent handoff
                 hqueue hpc dqueue dpc w trace fail app
                 validateDraw DB processDraw now]; stage_eqs)).

Ltac run := repeat run1; rewrite ?exec_nil.

Lemma GetProductsHandler_returns W : returned (GetProductsHandler W) = true.
Proof.
  destruct W as [db vd pd nw]. unfold GetProductsHandler, handlerFirst, init.
  cbn [repeat app].
  destruct (validate_cases vd) as [Ev|Ev].
  { run. reflexivity. }
  destruct (fetch_cases db)
    as [(_ & a & e & Ef)|[(a & e & Ef)|[(a & e & Ef)|(p & Ef)]]];
    try (run; reflexivity).
  destruct (process_cases pd p) as [Ep|Ep].
  { run. reflexivity. }
  run; reflexivity.
Qed.

(** *** Consequences of the invariant *)

Lemma answers_intro W (P : State -> Prop) :
  (forall s, reachable W s -> returned s = true -> P s) -> answers W P.
Proof.
  intros H. split; [apply GetProductsHandler_returns | exact H].
Qed.

Lemma reachable_GetProductsHandler W : reachable W (GetProductsHandler W).
Proof. exists handlerFirst. unfold GetProductsHandler. reflexivity. Qed.

Lemma returned_pc s : returned s = true -> hpc s = HReturn /\ hqueue s = [].
Proof.
  unfold returned. destruct (hpc s); try discriminate.
  destruct (hqueue s); [auto | discriminate].
Qed.

Lemma returned_response W s :
  reachable W s -> returned s = true -> w s = finalResponse W.
Proof.
  intros Hs Hr. apply Inv_reachable in Hs. apply returned_pc in Hr as [Hp _].
  pose proof (inv_pc Hs) as Hpc. rewrite Hp in Hpc. apply Hpc.
Qed.

Lemma returned_events W s :
  reachable W s -> returned s = true ->
  eventsOf Handler (trace s) = handlerScript W.
Proof.
  intros Hs Hr. apply Inv_reachable in Hs. apply returned_pc in Hr as [Hp Hq].
  pose proof (inv_handler Hs) as Hh. now rewrite Hp, Hq, app_nil_r in Hh.
Qed.

Lemma http_Error_new msg code :
  statusCode (http_Error newResponse msg code) = code
  /\ body (http_Error newResponse msg code) = [Text (msg +++ newline)].
Proof. split; reflexivity. Qed.

Lemma respond_encoded r v :
  marshalResponse r = inr v ->
  statusCode (fst (respond newResponse r)) = StatusOK
  /\ body (fst (respond newResponse r)) = [JSONLine v].
Proof. intros H. unfold respond, Encode. rewrite H. split; reflexivity. Qed.

Lemma respond_refused r err :
  marshalResponse r = inl err ->
  statusCode (fst (respond newResponse r)) = StatusOK
  /\ body (fst (respond newResponse r))
     = [Text (("Failed to encode response: " +++ err) +++ newline)].
Proof. intros H. unfold respond, Encode. rewrite H. split; reflexivity. Qed.

Lemma validateErr_message W err :
  validateErr W = Some err -> err = "request validation failed".
Proof.
  unfold validateErr. destruct (validate_cases (validateDraw W)) as [E|E];
    rewrite E; simpl; congruence.
Qed.

Lemma map_snd_by t evs : map snd (by_ t evs) = evs.
Proof.
  unfold by_. rewrite map_map. simpl. apply map_id.
Qed.

Lemma count_by P t evs : count P (by_ t evs) = List.length (filter P evs).
Proof. unfold count. now rewrite map_snd_by. Qed.

Lemma filter_prefix_nil {A} (P : A -> bool) a b :
  filter P (a ++ b) = [] -> filter P a = [].
Proof. rewrite filter_app. intros H. now apply app_eq_nil in H. Qed.

(** Before the goroutine is started the trace holds the handler's events
    only, and they are a prefix of what the handler will have emitted. *)
Lemma before_spawn W s :
  Inv W s -> dpc s = DNone ->
  trace s = by_ Handler (eventsOf Handler (trace s))
  /\ exists q, eventsOf Handler (trace s) ++ q = scriptAt W (hpc s).
Proof.
  intros HI Hd. pose proof (inv_order HI) as Ho. rewrite Hd in Ho.
  split; [exact Ho|]. exists (hqueue s). apply (inv_handler HI).
Qed.

Lemma rejected_pcs W s err :
  Inv W s -> validateErr W = Some err ->
  dpc s = DNone
  /\ exists q,
      eventsOf Handler (trace s) ++ q
      = (SpanStart handlerSpan :: fst (validateRequest (validateDraw W)))
          ++ failEvents err.
Proof.
  intros HI Ev. pose proof (inv_pc HI) as Hpc. pose proof (inv_handler HI) as Hh.
  destruct (hpc s) eqn:Hp; cbn [scriptAt] in Hh.
  - destruct Hpc as [_ Hd]. split; [exact Hd|].
    apply app_eq_nil in Hh as [-> _]. eexists. reflexivity.
  - destruct Hpc as (_ & _ & Hd). split; [exact Hd|].
    exists (hqueue s ++ failEvents err). now rewrite app_assoc, Hh.
  - destruct Hpc as (E & _); congruence.
  - destruct Hpc as (E & _); congruence.
  - destruct Hpc as ((E & _) & _); congruence.
  - destruct Hpc as (_ & Hd). unfold handlerScript in Hh. rewrite Ev in Hh.
    destruct (dpc s); try (destruct Hd as (E & _); congruence).
    split; [reflexivity|]. now exists (hqueue s).
Qed.

(** C2: when the validation stage returns an error, the handler answers 400
    with the validation error message as its body, and under no schedule is
    GetAllProducts called or a query sent to the store. *)
Theorem validation_failure_is_400_without_fetch W err :
  validateErr W = Some err ->
  answers W (fun s =>
    statusCode (w s) = StatusBadRequest
    /\ body (w s) = [Text (err +++ newline)]
    /\ containsText "request validation failed" (body (w s)))
  /\ forall s, reachable W s ->
      fetchCalls (trace s) = 0%nat /\ storeQueries (trace s) = 0%nat.
Proof.
  intros Ev. split.
  - apply answers_intro. intros s Hs Hr.
    rewrite (returned_response Hs Hr). unfold finalResponse. rewrite Ev.
    destruct (http_Error_new err StatusBadRequest) as [-> ->].
    repeat split. exists "", newline. rewrite (validateErr_message _ Ev).
    left. reflexivity.
  - intros s Hs. pose proof (Inv_reachable Hs) as HI.
    destruct (rejected_pcs HI Ev) as (Hd & q & Hq).
    destruct (before_spawn HI Hd) as [Ht _].
    unfold fetchCalls, spanStarts, storeQueries. rewrite Ht, !count_by.
    split; (erewrite filter_prefix_nil; [reflexivity|]); rewrite Hq;
      destruct (validate_cases (validateDraw W)) as [E|E]; rewrite E;
      reflexivity.
Qed.

Lemma validation_failure_witness :
  statusCode (w (GetProductsHandler worldInvalid)) = 400
  /\ fetchCalls (trace (GetProductsHandler worldInvalid)) = 0%nat.
Proof.
  assert (Ev : validateErr worldInvalid = Some "request validation failed")
    by reflexivity.
  destruct (@validation_failure_is_400_without_fetch worldInvalid _ Ev)
    as [[Hr H] Hn].
  split.
  - apply (H _ (reachable_GetProductsHandler worldInvalid) Hr).
  - apply (Hn _ (reachable_GetProductsHandler worldInvalid)).
Defined.

(** C3: when the store fetch or the processing stage returns an error, the
    handler answers 500 and the body is the one line of error text: no JSON
    document, hence no products field, is written next to it. *)
Theorem fetch_or_process_failure_is_500 W err :
  validateErr W = None ->
  fetchErr W = Some err \/ (fetchErr W = None /\ processErr W = Some err) ->
  answers W (fun s =>
    statusCode (w s) = StatusInternalServerError
    /\ (exists text, body (w s) = [Text ((text +++ err) +++ newline)])
    /\ forall v, ~ In (JSONLine v) (body (w s))).
Proof.
  intros Ev Hfail. apply answers_intro. intros s Hs Hr.
  rewrite (returned_response Hs Hr). unfold finalResponse. rewrite Ev.
  destruct Hfail as [Ef | [Ef Ep]]; rewrite Ef; [|rewrite Ep];
    match goal with
    | |- context [http_Error newResponse (?m +++ _) ?c] =>
        destruct (http_Error_new (m +++ err) c) as [-> ->];
        (split; [reflexivity|]; split;
         [exists m; reflexivity | intros v [H|[]]; discriminate])
    end.
Qed.

Lemma fetch_failure_witness :
  statusCode (w (GetProductsHandler worldScanFails)) = 500
  /\ statusCode (w (GetProductsHandler worldProcessFails)) = 500.
Proof.
  split.
  - assert (Ev : validateErr worldScanFails = None) by reflexivity.
    assert (Ef : fetchErr worldScanFails
                 = Some "error scanning product row: converting NULL to int is unsupported")
      by reflexivity.
    destruct (@fetch_or_process_failure_is_500 worldScanFails _ Ev (or_introl Ef))
      as [Hr H].
    apply (H _ (reachable_GetProductsHandler worldScanFails) Hr).
  - assert (Ev : validateErr worldProcessFails = None) by reflexivity.
    assert (Ef : fetchErr worldProcessFails = None) by reflexivity.
    assert (Ep : processErr worldProcessFails = Some "data processing failed")
      by reflexivity.
    destruct (@fetch_or_process_failure_is_500 worldProcessFails _ Ev
                (or_intror (conj Ef Ep))) as [Hr H].
    apply (H _ (reachable_GetProductsHandler worldProcessFails) Hr).
Defined.

(** C6: with the package variable DB still nil GetAllProducts returns an
    error value, and a request that gets to the fetch is answered 500 with a
    body that contains "database connection not initialized". *)
Theorem uninitialized_store_is_500 W :
  DB W = None ->
  validateErr W = None ->
  snd (GetAllProducts (DB W))
  = (None, Some "database connection not initialized; call InitDB first")
  /\ answers W (fun s =>
       statusCode (w s) = StatusInternalServerError
       /\ containsText "database connection not initialized" (body (w s))).
Proof.
  intros Hdb Ev.
  assert (Ef : fetchErr W
               = Some "database connection not initialized; call InitDB first")
    by (unfold fetchErr; rewrite Hdb; reflexivity).
  split; [rewrite Hdb; reflexivity|].
  apply answers_intro. intros s Hs Hr.
  rewrite (returned_response Hs Hr). unfold finalResponse. rewrite Ev, Ef.
  split; [reflexivity|].
  exists "Failed to fetch products: ", ("; call InitDB first" +++ newline).
  left. reflexivity.
Qed.

Lemma uninitialized_store_witness :
  statusCode (w (GetProductsHandler worldNoDB)) = 500.
Proof.
  assert (Hdb : DB worldNoDB = None) by reflexivity.
  assert (Ev : validateErr worldNoDB = None) by reflexivity.
  destruct (@uninitialized_store_is_500 worldNoDB Hdb Ev) as [_ [Hr H]].
  apply (H _ (reachable_GetProductsHandler worldNoDB) Hr).
Defined.

(** C10: a fetch that succeeds on an empty table leaves the slice nil; the
    handler answers 200 and the products field of the document is null. *)
Theorem empty_table_is_200_with_null db rows W :
  DB W = Some db ->
  QueryContext db query = inr rows ->
  rows_data rows = [] ->
  rows_Err rows = None ->
  validateErr W = None ->
  processErr W = None ->
  fetchedProducts W = None
  /\ answers W (fun s =>
       statusCode (w s) = StatusOK
       /\ exists v,
           body (w s) = [JSONLine v]
           /\ field "products" v = Some JNull
           /\ field "products" v <> Some (JArray [])).
Proof.
  intros Hdb Hq Hdata Herr Ev Ep.
  assert (Hf : snd (GetAllProducts (DB W)) = (None, None)).
  { rewrite Hdb. unfold GetAllProducts, withSpan. cbv zeta.
    rewrite Hq, Hdata. cbn [scanRows]. rewrite Herr. reflexivity. }
  assert (Hp : fetchedProducts W = None) by (unfold fetchedProducts; now rewrite Hf).
  assert (Ef : fetchErr W = None) by (unfold fetchErr; now rewrite Hf).
  split; [exact Hp|].
  apply answers_intro. intros s Hs Hr.
  rewrite (returned_response Hs Hr). unfold finalResponse. rewrite Ev, Ef, Ep.
  assert (Hm : marshalResponse (assembled W)
               = inr (JObject [("products", JNull);
                               ("slow_status", JInt (SlowStatus (assembled W)));
                               ("slow_message", JString (SlowMessage (assembled W)));
                               ("process_status",
                                JString (ProcessStatus (assembled W)))])).
  { unfold marshalResponse, assembled, assemble. cbn [Products]. now rewrite Hp. }
  destruct (respond_encoded _ Hm) as [-> ->].
  split; [reflexivity|]. eexists. split; [reflexivity|].
  split; [reflexivity | discriminate].
Qed.

Lemma empty_table_witness :
  statusCode (w (GetProductsHandler worldEmpty)) = 200
  /\ exists v, body (w (GetProductsHandler worldEmpty)) = [JSONLine v]
               /\ field "products" v = Some JNull.
Proof.
  assert (Hdb : DB worldEmpty = Some (table [] None)) by reflexivity.
  assert (Hq : QueryContext (table [] None) query
               = inr {| rows_data := []; rows_Err := None |}) by reflexivity.
  assert (Ev : validateErr worldEmpty = None) by reflexivity.
  assert (Ep : processErr worldEmpty = None) by reflexivity.
  destruct (@empty_table_is_200_with_null _ _ worldEmpty Hdb Hq eq_refl eq_refl
              Ev Ep) as [_ [Hr H]].
  destruct (H _ (reachable_GetProductsHandler worldEmpty) Hr)
    as (Hc & v & Hb & Hn & _).
  split; [exact Hc|]. exists v. split; [exact Hb | exact Hn].
Defined.

(** *** Encoding *)

Lemma marshalProducts_encodable l :
  forallb encodable l = true ->
  exists vs, marshalProducts l = inr vs /\ List.length vs = List.length l.
Proof.
  induction l as [|p l IH]; simpl; intros H.
  - now exists [].
  - apply andb_prop in H as [Hp Hl]. destruct (IH Hl) as (vs & E & Hlen).
    unfold marshalProduct, marshalFloat. unfold encodable in Hp.
    destruct (Price p) as [ | [|] | | ]; try discriminate;
      rewrite E; eexists; (split; [reflexivity | simpl; now rewrite Hlen]).
Qed.

Lemma marshalResponse_fields r v :
  marshalResponse r = inr v ->
  field "slow_status" v = Some (JInt (SlowStatus r))
  /\ field "slow_message" v = Some (JString (SlowMessage r))
  /\ field "process_status" v = Some (JString (ProcessStatus r))
  /\ exists ps, field "products" v = Some ps /\ marshalSlice (Products r) = inr ps.
Proof.
  unfold marshalResponse. destruct (marshalSlice (Products r)) as [e|ps];
    [discriminate|]. intros [= <-]. repeat split. now exists ps.
Qed.

Lemma marshalResponse_encodable r :
  forallb encodable (elems (Products r)) = true ->
  exists v, marshalResponse r = inr v.
Proof.
  intros H. unfold marshalResponse, marshalSlice.
  destruct (Products r) as [l|]; [|eexists; reflexivity].
  cbn [elems] in H.
  destruct (marshalProducts_encodable _ H) as (vs & -> & _).
  eexists; reflexivity.
Qed.

Lemma assembled_response W s :
  reachesAssembly W -> reachable W s -> returned s = true ->
  w s = fst (respond newResponse (assembled W)).
Proof.
  intros (Ev & Ef & Ep) Hs Hr. rewrite (returned_response Hs Hr).
  unfold finalResponse. now rewrite Ev, Ef, Ep.
Qed.

Lemma processedStatus_success W :
  processErr W = None -> processedStatus W = "success".
Proof.
  unfold processErr, processedStatus.
  destruct (process_cases (processDraw W) (fetchedProducts W)) as [E|E];
    rewrite E; simpl; congruence.
Qed.

(** C4: in a request that gets as far as assembling its response, the
    slow_status and slow_message fields of the document the handler writes
    are the status code and the body the dependent call left in its
    recorder, and so is the value that waits at the channel. *)
Theorem slow_result_round_trip W :
  reachesAssembly W ->
  answers W (fun s =>
    (forall v, In (JSONLine v) (body (w s)) ->
       field "slow_status" v
       = Some (JInt (Code (snd (HandleSlowAPI (now W) NewRecorder))))
       /\ field "slow_message" v
          = Some (JString (Body (snd (HandleSlowAPI (now W) NewRecorder)))))
    /\ (forallb encodable (elems (fetchedProducts W)) = true ->
        exists v, body (w s) = [JSONLine v]))
  /\ forall s r, reachable W s -> dpc s = DSend r ->
       status r = Code (snd (HandleSlowAPI (now W) NewRecorder))
       /\ msg r = Body (snd (HandleSlowAPI (now W) NewRecorder)).
Proof.
  intros Ha. split.
  - apply answers_intro. intros s Hs Hr.
    rewrite (assembled_response Ha Hs Hr). split.
    + intros v Hin.
      destruct (marshalResponse (assembled W)) as [e|v0] eqn:Hm.
      * destruct (respond_refused _ Hm) as [_ Hb]. rewrite Hb in Hin.
        destruct Hin as [H|[]]; discriminate.
      * destruct (respond_encoded _ Hm) as [_ Hb]. rewrite Hb in Hin.
        destruct Hin as [[= <-]|[]].
        destruct (marshalResponse_fields _ Hm) as (H1 & H2 & _).
        split; assumption.
    + intros He. destruct (@marshalResponse_encodable (assembled W) He) as [v Hm].
      exists v. apply (respond_encoded _ Hm).
  - intros s r Hs Hd. pose proof (inv_dpc (Inv_reachable Hs)) as H.
    rewrite Hd in H. subst r. split; reflexivity.
Qed.

Lemma slow_result_round_trip_witness :
  exists v,
    body (w (GetProductsHandler worldTwo)) = [JSONLine v]
    /\ field "slow_status" v = Some (JInt 200).
Proof.
  assert (Ha : reachesAssembly worldTwo) by (repeat split; reflexivity).
  destruct (@slow_result_round_trip worldTwo Ha) as [[Hr H] _].
  destruct (H _ (reachable_GetProductsHandler worldTwo) Hr) as [Hf Hb].
  destruct (Hb eq_refl) as [v Hv]. exists v. split; [exact Hv|].
  apply Hf. rewrite Hv. left. reflexivity.
Defined.

(** Whenever the response can be encoded, a request that gets as far as
    assembling it is answered 200 with the fetched records and "success". *)
Lemma encoded_response_shape W :
  reachesAssembly W ->
  forallb encodable (elems (fetchedProducts W)) = true ->
  answers W (fun s =>
    statusCode (w s) = StatusOK
    /\ exists v,
        body (w s) = [JSONLine v]
        /\ field "process_status" v = Some (JString "success")
        /\ ((fetchedProducts W = None /\ field "products" v = Some JNull)
            \/ exists items,
                field "products" v = Some (JArray items)
                /\ Z.of_nat (List.length items) = len (fetchedProducts W))).
Proof.
  intros Ha He. apply answers_intro. intros s Hs Hr.
  rewrite (assembled_response Ha Hs Hr).
  destruct (@marshalResponse_encodable (assembled W) He) as [v Hm].
  destruct (respond_encoded _ Hm) as [-> ->]. split; [reflexivity|].
  exists v. split; [reflexivity|].
  destruct (marshalResponse_fields _ Hm) as (_ & _ & Hp & ps & Hps & Hs').
  split.
  - rewrite Hp. cbn [assembled assemble ProcessStatus].
    destruct Ha as (_ & _ & Ep). now rewrite (processedStatus_success _ Ep).
  - cbn [assembled assemble Products] in Hs', He. unfold marshalSlice in Hs'.
    destruct (fetchedProducts W) as [l|].
    + right. cbn [elems] in He.
      destruct (marshalProducts_encodable _ He) as (vs & E & Hlen).
      rewrite E in Hs'. injection Hs' as <-. exists vs.
      split; [exact Hps|]. cbn [len]. now rewrite Hlen.
    + left. injection Hs' as <-. split; [reflexivity | exact Hps].
Qed.

(** When the response cannot be encoded the status line 200 is out already
    and the error text is all the client gets. *)
Lemma unencodable_response_shape W err :
  reachesAssembly W ->
  marshalResponse (assembled W) = inl err ->
  answers W (fun s =>
    statusCode (w s) = StatusOK
    /\ body (w s) = [Text (("Failed to encode response: " +++ err) +++ newline)]).
Proof.
  intros Ha Hm. apply answers_intro. intros s Hs Hr.
  rewrite (assembled_response Ha Hs Hr). apply (respond_refused _ Hm).
Qed.

(** All stages succeed and the fetch returns two records. *)
Example two_records_scenario :
  returned (GetProductsHandler worldTwo) = true
  /\ len (fetchedProducts worldTwo) = 2
  /\ statusCode (w (GetProductsHandler worldTwo)) = 200
  /\ exists items rest,
      body (w (GetProductsHandler worldTwo))
      = [JSONLine (JObject (("products", JArray items)
                            :: ("slow_status", JInt 200) :: rest))]
      /\ List.length items = 2%nat
      /\ assoc "process_status" rest = Some (JString "success").
Proof.
  vm_compute. repeat split. do 2 eexists. repeat split.
Qed.

(** C1: a record whose price is NaN is fetched and processed without error,
    but cannot be encoded: the status line 200 has gone out by then, the 500
    of line 184 is dropped, and the request completes with HTTP 200 and a
    text body that holds no products array and no process_status. *)
Theorem encode_failure_completes_with_200 :
  reachesAssembly worldUnpriced
  /\ len (fetchedProducts worldUnpriced) = 1
  /\ returned (GetProductsHandler worldUnpriced) = true
  /\ statusCode (w (GetProductsHandler worldUnpriced)) = StatusOK
  /\ body (w (GetProductsHandler worldUnpriced))
     = [Text ("Failed to encode response: json: unsupported value: NaN"
              +++ newline)].
Proof. vm_compute. repeat split. Qed.

(** C5: with the store uninitialized GetAllProducts ends its span at line
    70 and again through the deferred call of line 66: one start, two ends. *)
Theorem uninitialized_fetch_ends_its_span_twice :
  DB worldNoDB = None
  /\ returned (GetProductsHandler worldNoDB) = true
  /\ spanStarts "GetAllProducts" (trace (GetProductsHandler worldNoDB)) = 1%nat
  /\ spanEnds "GetAllProducts" (trace (GetProductsHandler worldNoDB)) = 2%nat
  /\ fst (GetAllProducts None)
     = [SpanStart "GetAllProducts";
        SpanSetAttributes "GetAllProducts" "error"
          (AttrString "database not initialized");
        SpanEnd "GetAllProducts"; SpanEnd "GetAllProducts"].
Proof. vm_compute. repeat split. Qed.

(** *** The store fetch *)

Lemma scanRows_error data :
  (exists e, In (inl e) data) ->
  forall acc, exists e, scanRows data acc = inl e.
Proof.
  induction data as [|[e'|p] data IH]; intros [e Hin] acc.
  - destruct Hin.
  - now exists e'.
  - destruct Hin as [Hin|Hin]; [discriminate|].
    simpl. apply IH. now exists e.
Qed.

Lemma scanRows_all ps :
  forall acc,
    scanRows (map inr ps) acc
    = inr match ps with
          | [] => acc
          | _ => Some (elems acc ++ ps)
          end.
Proof.
  induction ps as [|p ps IH]; intros acc; [reflexivity|].
  simpl. rewrite IH. destruct ps as [|q ps].
  - destruct acc; reflexivity.
  - destruct acc; cbn [append elems]; rewrite <- ?app_assoc; reflexivity.
Qed.

(** C7: once the query is running, a failing Scan on any row or a cursor
    error makes GetAllProducts return the nil slice with an error, whatever
    was scanned before; when every row scans it returns them all and sets
    product_count to their number on its span. *)
Theorem fetch_is_all_or_nothing db rows :
  QueryContext db query = inr rows ->
  ((exists e, In (inl e) (rows_data rows)) \/ rows_Err rows <> None ->
     fst (snd (GetAllProducts (Some db))) = None
     /\ snd (snd (GetAllProducts (Some db))) <> None)
  /\ (forall ps,
        rows_data rows = map inr ps -> rows_Err rows = None ->
        snd (GetAllProducts (Some db))
        = (match ps with [] => None | _ => Some ps end, None)
        /\ In (SpanSetAttributes "GetAllProducts" "product_count"
                 (AttrInt (Z.of_nat (List.length ps))))
              (fst (GetAllProducts (Some db)))).
Proof.
  intros Hq. unfold GetAllProducts, withSpan. cbv zeta. rewrite Hq. split.
  - intros [Hscan|Herr].
    + destruct (@scanRows_error _ Hscan None) as [e ->]. split; [reflexivity|].
      discriminate.
    + destruct (scanRows (rows_data rows) None); [split; [reflexivity|discriminate]|].
      destruct (rows_Err rows); [split; [reflexivity|discriminate]|].
      now destruct Herr.
  - intros ps Hdata Herr. rewrite Hdata, scanRows_all, Herr.
    destruct ps as [|p ps]; split; try reflexivity; simpl; auto.
Qed.

Lemma fetch_is_all_or_nothing_witness :
  fst (snd (GetAllProducts (Some scanFailure))) = None
  /\ fst (snd (GetAllProducts (Some cursorFailure))) = None
  /\ snd (GetAllProducts (DB worldTwo)) = (Some [widget; gadget], None).
Proof.
  split; [|split].
  - assert (Hq : QueryContext scanFailure query
                 = inr {| rows_data := [inr widget;
                                        inl "converting NULL to int is unsupported";
                                        inr gadget];
                          rows_Err := None |}) by reflexivity.
    destruct (@fetch_is_all_or_nothing _ _ Hq) as [H _].
    apply H. left. exists "converting NULL to int is unsupported".
    right. left. reflexivity.
  - assert (Hq : QueryContext cursorFailure query
                 = inr {| rows_data := [inr widget; inr gadget];
                          rows_Err := Some "invalid connection" |}) by reflexivity.
    destruct (@fetch_is_all_or_nothing _ _ Hq) as [H _].
    apply H. right. discriminate.
  - assert (Hq : QueryContext (table [inr widget; inr gadget] None) query
                 = inr {| rows_data := [inr widget; inr gadget];
                          rows_Err := None |}) by reflexivity.
    destruct (@fetch_is_all_or_nothing _ _ Hq) as [_ H].
    apply (H [widget; gadget] eq_refl eq_refl).
Defined.

(** *** Order of events *)

Lemma precedes_none {A} (a : A) (P : A -> Prop) l :
  (forall x, In x l -> ~ P x) -> precedes a P l.
Proof.
  intros H l1 x l2 -> Hx. exfalso. apply (H x); [|exact Hx].
  apply in_or_app. right. now left.
Qed.

Lemma precedes_prefix {A} (a : A) (P : A -> Prop) pre tail :
  In a pre -> (forall x, In x pre -> ~ P x) -> precedes a P (pre ++ tail).
Proof.
  intros Ha Hn l1 x l2 E Hx.
  apply app_eq_app in E as [l [[E1 E2]|[E1 E2]]].
  - destruct l as [|y l].
    + rewrite app_nil_r in E1. now subst.
    + injection E2 as <- _. exfalso. apply (Hn x); [|exact Hx].
      rewrite E1. apply in_or_app. right. now left.
  - rewrite E1. apply in_or_app. now left.
Qed.

Lemma In_by t e evs : In (t, e) (by_ t evs) <-> In e evs.
Proof.
  unfold by_. split.
  - intros H. apply in_map_iff in H as (e' & [= <-] & H). exact H.
  - intros H. apply in_map_iff. now exists e.
Qed.

Lemma In_by_inv t x evs : In x (by_ t evs) -> fst x = t /\ In (snd x) evs.
Proof.
  unfold by_. intros H. apply in_map_iff in H as (e & <- & H). now split.
Qed.

Lemma eventsOf_In t e tr : In e (eventsOf t tr) -> In (t, e) tr.
Proof.
  unfold eventsOf. intros H. apply in_map_iff in H as ([t' e'] & He & H).
  apply filter_In in H as [H Ht]. simpl in *. subst e'.
  destruct t, t'; try discriminate; exact H.
Qed.

Lemma validated_events d e :
  In e (SpanStart handlerSpan :: fst (validateRequest d)) ->
  e <> SpanStart "processData".
Proof.
  destruct (validate_cases d) as [E|E]; rewrite E; simpl;
    intuition (subst; discriminate).
Qed.

Lemma fetch_events db e :
  In e (fst (GetAllProducts db)) -> e <> SpanStart "processData".
Proof.
  destruct (fetch_cases db)
    as [(_ & a & x & E)|[(a & x & E)|[(a & x & E)|(p & E)]]];
    rewrite E; simpl; intuition (subst; discriminate).
Qed.

Lemma fetch_ends db : In (SpanEnd "GetAllProducts") (fst (GetAllProducts db)).
Proof.
  destruct (fetch_cases db)
    as [(_ & a & x & E)|[(a & x & E)|[(a & x & E)|(p & E)]]];
    rewrite E; simpl; auto 10.
Qed.

Lemma process_ends d p : In (SpanEnd "processData") (fst (processData d p)).
Proof. destruct (process_cases d p) as [E|E]; rewrite E; simpl; auto 10. Qed.

Lemma process_events_nonempty d p : fst (processData d p) <> [].
Proof. destruct (process_cases d p) as [E|E]; rewrite E; discriminate. Qed.

Lemma fetchScript_events W e :
  In e (fetchScript W) -> e <> SpanStart "processData".
Proof.
  unfold fetchScript. intros H. apply in_app_or in H as [H|H].
  - now apply validated_events in H.
  - now apply fetch_events in H.
Qed.

Lemma failEvents_events err e :
  In e (failEvents err) -> e <> SpanStart "processData".
Proof. simpl. intuition (subst; discriminate). Qed.

(** Before the goroutine is started nothing of the fan-out has happened. *)
Lemma before_spawn_quiet W s x :
  Inv W s -> dpc s = DNone -> In x (trace s) -> ~ startsFanOut x.
Proof.
  intros HI Hd Hx. destruct (before_spawn HI Hd) as [Ht [q Hq]].
  rewrite Ht in Hx. apply In_by_inv in Hx as [Hf Hin].
  assert (Hs : In (snd x) (scriptAt W (hpc s)))
    by (rewrite <- Hq; apply in_or_app; now left).
  intros [H|H]; [congruence|]. revert H.
  pose proof (inv_pc HI) as Hpc.
  destruct (hpc s); cbn [scriptAt] in Hs.
  - destruct Hs.
  - now apply validated_events in Hs.
  - now apply fetchScript_events in Hs.
  - destruct Hpc as (_ & _ & _ & _ & _ & _ & Hn & _). congruence.
  - destruct Hpc as (_ & _ & _ & _ & _ & Hn & _). congruence.
  - destruct Hpc as [_ Hc]. rewrite Hd in Hc. unfold handlerScript in Hs.
    destruct Hc as [Hc|[Ev Hc]].
    + destruct (validateErr W); [|congruence].
      apply in_app_or in Hs as [Hs|Hs];
        [now apply validated_events in Hs | now apply failEvents_events in Hs].
    + rewrite Ev in Hs. destruct (fetchErr W); [|congruence].
      apply in_app_or in Hs as [Hs|Hs];
        [now apply fetchScript_events in Hs | now apply failEvents_events in Hs].
Qed.

Lemma fetch_precedes_fan_out W s :
  reachable W s ->
  precedes (Handler, SpanEnd "GetAllProducts") startsFanOut (trace s).
Proof.
  intros Hs. pose proof (Inv_reachable Hs) as HI.
  destruct (dpc s) eqn:Hd.
  - apply precedes_none. intros x. now apply before_spawn_quiet with (W := W).
  - pose proof (inv_order HI) as Ho. rewrite Hd in Ho. destruct Ho as [tl ->].
    apply precedes_prefix.
    + apply In_by. unfold fetchScript. apply in_or_app. right. apply fetch_ends.
    + intros x Hx [H|H]; apply In_by_inv in Hx as [Hf Hin]; [congruence|].
      now apply fetchScript_events in Hin.
  - pose proof (inv_order HI) as Ho. rewrite Hd in Ho. destruct Ho as [tl ->].
    apply precedes_prefix.
    + apply In_by. unfold fetchScript. apply in_or_app. right. apply fetch_ends.
    + intros x Hx [H|H]; apply In_by_inv in Hx as [Hf Hin]; [congruence|].
      now apply fetchScript_events in Hin.
  - pose proof (inv_order HI) as Ho. rewrite Hd in Ho. destruct Ho as [tl ->].
    apply precedes_prefix.
    + apply In_by. unfold fetchScript. apply in_or_app. right. apply fetch_ends.
    + intros x Hx [H|H]; apply In_by_inv in Hx as [Hf Hin]; [congruence|].
      now apply fetchScript_events in Hin.
Qed.

(** C8: under every schedule the fetch has ended before anything of the
    dependent call or of the processing stage happens; one step of the
    handler starts the goroutine and calls processData, after which both
    units of work can move; the handler is at the receive only when
    processData has returned without error, and from there it moves by
    taking the dependent call's result and in no other way. *)
Theorem fan_out_order W s :
  reachable W s ->
  precedes (Handler, SpanEnd "GetAllProducts") startsFanOut (trace s)
  /\ (forall p, hpc s = HFetched p None -> hqueue s = [] ->
        exists s',
          step W Handler s = Some s'
          /\ dpc s = DNone /\ dpc s' = DStart /\ dqueue s' = []
          /\ hqueue s' = fst (processData (processDraw W) p)
          /\ trace s' = trace s
          /\ step W Handler s' <> None /\ step W Dependent s' <> None)
  /\ (forall p st, hpc s = HRecv p st ->
        processErr W = None
        /\ In (Handler, SpanEnd "processData") (trace s)
        /\ hqueue s = []
        /\ forall s', step W Handler s = Some s' ->
             dqueue s = [] /\ dpc s = DSend (slowOf W)
             /\ hpc s' = HReturn /\ dpc s' = DReturn).
Proof.
  intros Hs. pose proof (Inv_reachable Hs) as HI.
  split; [exact (fetch_precedes_fan_out Hs)|]. split.
  - intros p Hp Hq. pose proof (inv_pc HI) as Hpc. rewrite Hp in Hpc.
    destruct Hpc as (_ & _ & _ & _ & Hd).
    cbn [step]. unfold stepHandler. rewrite Hq, Hp.
    pose proof (@process_events_nonempty (processDraw W) p) as Hne.
    destruct (processData (processDraw W) p) as [evs [st e]].
    eexists. split; [reflexivity|]. cbn [dpc dqueue hqueue trace fst].
    repeat split; auto.
    + unfold stepHandler. cbn [hqueue]. destruct evs; [now destruct Hne|discriminate].
    + unfold stepDependent. cbn [dqueue dpc]. rewrite slow_eta. discriminate.
  - intros p st Hp. pose proof (inv_pc HI) as Hpc. rewrite Hp in Hpc.
    destruct Hpc as ((_ & _ & Ep) & _ & _ & _ & Hq & _).
    split; [exact Ep|]. split; [|split; [exact Hq|]].
    + apply eventsOf_In. pose proof (inv_handler HI) as Hh.
      rewrite Hq, app_nil_r, Hp in Hh. rewrite Hh. cbn [scriptAt].
      apply in_or_app. right. apply process_ends.
    + intros s'. cbn [step]. unfold stepHandler. rewrite Hq, Hp.
      unfold handoff. rewrite Hq, Hp.
      pose proof (inv_dpc HI) as Hd.
      destruct (dqueue s); [|discriminate].
      destruct (dpc s); try discriminate. subst r.
      rewrite respond_eta. intros [= <-]. repeat split.
Qed.

Lemma fan_out_order_witness :
  (exists s',
      step worldTwo Handler (exec worldTwo beforeFanOut init) = Some s'
      /\ dpc s' = DStart)
  /\ In (Handler, SpanEnd "processData")
        (trace (exec worldTwo atReceive init)).
Proof.
  split.
  - assert (Hs : reachable worldTwo (exec worldTwo beforeFanOut init))
      by (exists beforeFanOut; reflexivity).
    destruct (@fan_out_order worldTwo _ Hs) as (_ & H & _).
    destruct (H (Some [widget; gadget])) as (s' & Hstep & _ & Hd & _);
      [vm_compute; reflexivity | vm_compute; reflexivity |].
    exists s'. split; [exact Hstep | exact Hd].
  - assert (Hs : reachable worldTwo (exec worldTwo atReceive init))
      by (exists atReceive; reflexivity).
    destruct (@fan_out_order worldTwo _ Hs) as (_ & _ & H).
    destruct (H (Some [widget; gadget]) "success") as (_ & Hin & _);
      [vm_compute; reflexivity |].
    exact Hin.
Defined.

(** *** The abandoned dependent call *)

Lemma stuck_exec W s : stuck W s -> forall sched, exec W sched s = s.
Proof.
  intros H sched. induction sched as [|t sched IH]; [reflexivity|].
  rewrite exec_cons. unfold turn. now rewrite (H t).
Qed.

Lemma dependent_never_returns W err s :
  processErr W = Some err -> reachable W s ->
  dpc s <> DReturn /\ dependentReturned s = false.
Proof.
  intros Ep Hs. pose proof (inv_pc (Inv_reachable Hs)) as Hpc.
  assert (Hd : dpc s <> DReturn).
  { intros Hd. rewrite Hd in Hpc. destruct (hpc s).
    - destruct Hpc as [_ [=]].
    - destruct Hpc as (_ & _ & [=]).
    - destruct Hpc as (_ & _ & _ & _ & [=]).
    - destruct Hpc as (_ & _ & _ & _ & _ & _ & _ & H). now apply H.
    - destruct Hpc as (_ & _ & _ & _ & _ & _ & H). now apply H.
    - destruct Hpc as (_ & _ & _ & E). congruence. }
  split; [exact Hd|]. unfold dependentReturned.
  destruct (dpc s); try reflexivity. now destruct Hd.
Qed.

Lemma process_failure_run W err :
  validateErr W = None -> fetchErr W = None -> processErr W = Some err ->
  returned (GetProductsHandler W) = true
  /\ dqueue (GetProductsHandler W) = []
  /\ dpc (GetProductsHandler W) = DSend (slowOf W)
  /\ eventsOf Dependent (trace (GetProductsHandler W))
     = fst (HandleSlowAPI (now W) NewRecorder).
Proof.
  unfold validateErr, fetchErr, processErr, fetchedProducts, slowOf, slowRecorder.
  destruct W as [db vd pd nw]. unfold GetProductsHandler, handlerFirst, init.
  cbn [repeat app validateDraw DB processDraw now].
  destruct (validate_cases vd) as [Ev|Ev]; rewrite Ev; [discriminate|].
  destruct (fetch_cases db)
    as [(_ & a & e & Ef)|[(a & e & Ef)|[(a & e & Ef)|(p & Ef)]]];
    rewrite Ef; try discriminate.
  cbn [fst snd].
  destruct (process_cases pd p) as [Ep|Ep]; rewrite Ep; [|discriminate].
  intros _ _ _. run. rewrite ?slow_result. repeat split.
Qed.

(** C9, as the code has it: when the processing stage fails, the goroutine
    of the dependent call finishes HandleSlowAPI and then stays at the send
    on the unbuffered channel: nobody receives its result, it never returns,
    and once the handler has returned nothing can move any more. *)
Theorem abandoned_dependent_call_blocks_at_send W err :
  validateErr W = None -> fetchErr W = None -> processErr W = Some err ->
  (forall s, reachable W s -> dependentReturned s = false)
  /\ returned (GetProductsHandler W) = true
  /\ dqueue (GetProductsHandler W) = []
  /\ dpc (GetProductsHandler W) = DSend (slowOf W)
  /\ eventsOf Dependent (trace (GetProductsHandler W))
     = fst (HandleSlowAPI (now W) NewRecorder)
  /\ step W Dependent (GetProductsHandler W) = None
  /\ forall sched, exec W sched (GetProductsHandler W) = GetProductsHandler W.
Proof.
  intros Ev Ef Ep.
  destruct (@process_failure_run W err Ev Ef Ep) as (Hr & Hq & Hd & Ht).
  split; [intros s Hs; now apply (@dependent_never_returns W err s Ep Hs)|].
  repeat (split; [assumption|]).
  apply returned_pc in Hr as [Hp Hhq].
  assert (Hstuck : stuck W (GetProductsHandler W)).
  { intros [|]; cbn [step]; unfold stepHandler, stepDependent, handoff;
      rewrite ?Hp, ?Hhq, ?Hq, ?Hd; reflexivity. }
  split; [apply (Hstuck Dependent) | now apply stuck_exec].
Qed.

Lemma abandoned_dependent_call_witness :
  dpc (GetProductsHandler worldProcessFails)
  = DSend {| status := 200; msg := "Slow API response at " +++ clock +++ newline |}.
Proof.
  assert (Ev : validateErr worldProcessFails = None) by reflexivity.
  assert (Ef : fetchErr worldProcessFails = None) by reflexivity.
  assert (Ep : processErr worldProcessFails = Some "data processing failed")
    by reflexivity.
  destruct (@abandoned_dependent_call_blocks_at_send worldProcessFails _ Ev Ef Ep)
    as (_ & _ & _ & Hd & _).
  exact Hd.
Defined.

(** C9 as stated fails: processing fails, the handler answers and returns,
    and the dependent call is left at the send with its result in hand; no
    schedule ever lets it return. *)
Lemma abandoned_dependent_call_never_completes :
  processErr worldProcessFails = Some "data processing failed"
  /\ returned (GetProductsHandler worldProcessFails) = true
  /\ dpc (GetProductsHandler worldProcessFails)
     = DSend {| status := 200;
                msg := "Slow API response at " +++ clock +++ newline |}
  /\ step worldProcessFails Dependent (GetProductsHandler worldProcessFails)
     = None
  /\ ~ exists sched,
        dependentReturned (exec worldProcessFails sched init) = true.
Proof.
  repeat split; try (vm_compute; reflexivity).
  intros [sched H].
  assert (Hs : reachable worldProcessFails (exec worldProcessFails sched init))
    by (now exists sched).
  assert (Ep : processErr worldProcessFails = Some "data processing failed")
    by reflexivity.
  destruct (@dependent_never_returns _ _ _ Ep Hs) as [_ Hn]. congruence.
Qed.

(** *** Spans *)

Lemma count_split P tr :
  count P tr
  = (List.length (filter P (eventsOf Handler tr))
     + List.length (filter P (eventsOf Dependent tr)))%nat.
Proof.
  unfold count, eventsOf. induction tr as [|[[|] e] tr IH]; [reflexivity| |];
    cbn [map filter fst snd thread_eqb]; destruct (P e); cbn [List.length];
    rewrite IH; lia.
Qed.

Lemma dependent_emits_no_span_event W s name :
  Inv W s ->
  filter (isSpanStart name) (eventsOf Dependent (trace s)) = []
  /\ filter (isSpanEnd name) (eventsOf Dependent (trace s)) = [].
Proof.
  intros HI. pose proof (inv_dependent HI) as H.
  split; apply filter_prefix_nil with (b := dqueue s); rewrite H;
    destruct (dpc s); cbn [dependentScriptAt]; rewrite ?slow_result; reflexivity.
Qed.

Lemma span_counts W s name :
  reachable W s -> returned s = true ->
  spanStarts name (trace s)
  = List.length (filter (isSpanStart name) (handlerScript W))
  /\ spanEnds name (trace s)
     = List.length (filter (isSpanEnd name) (handlerScript W)).
Proof.
  intros Hs Hr.
  destruct (dependent_emits_no_span_event name (Inv_reachable Hs)) as [H1 H2].
  unfold spanStarts, spanEnds.
  rewrite !count_split, (returned_events Hs Hr), H1, H2. cbn [List.length].
  split; lia.
Qed.

(** With the store initialized every span that is started is ended once,
    and the handler's own span is the last to end. *)
Lemma initialized_store_spans_end_once W db :
  DB W = Some db ->
  answers W (fun s =>
    (forall name,
        In name ["validateRequest"; "GetAllProducts"; "processData"; handlerSpan] ->
        spanEnds name (trace s) = spanStarts name (trace s)
        /\ (spanStarts name (trace s) <= 1)%nat)
    /\ exists pre,
        eventsOf Handler (trace s) = pre ++ [SpanEnd handlerSpan]
        /\ ~ In (SpanEnd handlerSpan) pre).
Proof.
  intros Hdb. apply answers_intro. intros s Hs Hr.
  rewrite (returned_events Hs Hr).
  assert (Hscript :
    (forall name,
        In name ["validateRequest"; "GetAllProducts"; "processData"; handlerSpan] ->
        List.length (filter (isSpanEnd name) (handlerScript W))
        = List.length (filter (isSpanStart name) (handlerScript W))
        /\ (List.length (filter (isSpanStart name) (handlerScript W)) <= 1)%nat)
    /\ exists pre,
        handlerScript W = pre ++ [SpanEnd handlerSpan]
        /\ ~ In (SpanEnd handlerSpan) pre).
  { clear Hs Hr s.
    unfold handlerScript, fetchScript, processScript, validateErr, fetchErr,
      processErr, fetchedProducts.
    destruct (respond_cases newResponse (assembled W)) as [(w' & Er)|(w' & a & Er)];
      rewrite Er; clear Er;
      destruct W as [d vd pd nw]; cbn [DB validateDraw processDraw] in *; subst d;
      destruct (validate_cases vd) as [Ev|Ev]; rewrite Ev; clear Ev;
      (destruct (fetch_cases (Some db))
        as [([=] & _)|[(a1 & e1 & Ef)|[(a1 & e1 & Ef)|(p & Ef)]]]);
      rewrite Ef; clear Ef; cbn [fst snd];
      try (destruct (process_cases pd p) as [Ep|Ep]; rewrite Ep; clear Ep);
      unfold failEvents; cbn [fst snd app];
      (split;
       [intros name [<-|[<-|[<-|[<-|[]]]]]; split; vm_compute; try reflexivity; lia
       |match goal with
        | |- exists pre, ?L = pre ++ _ /\ _ =>
            exists (removelast L); split;
            [reflexivity | cbn; intuition discriminate]
        end]). }
  destruct Hscript as [Hn Hlast]. split; [|exact Hlast].
  intros name Hin. destruct (span_counts name Hs Hr) as [-> ->]. now apply Hn.
Qed.

(** With the store uninitialized a request that gets to the fetch ends the
    span of GetAllProducts twice, under every schedule. *)
Lemma uninitialized_store_ends_span_twice W :
  DB W = None ->
  validateErr W = None ->
  answers W (fun s =>
    spanStarts "GetAllProducts" (trace s) = 1%nat
    /\ spanEnds "GetAllProducts" (trace s) = 2%nat).
Proof.
  intros Hdb Ev. apply answers_intro. intros s Hs Hr.
  destruct (span_counts "GetAllProducts" Hs Hr) as [-> ->].
  unfold handlerScript, fetchScript, fetchErr. rewrite Ev. revert Ev.
  unfold validateErr. rewrite Hdb.
  destruct (validate_cases (validateDraw W)) as [E|E]; rewrite E;
    [discriminate|]. intros _. split; reflexivity.
Qed.

(** * Further properties *)

(** ** The handler under every schedule *)

(** X1: the response and the handler's own events do not depend on how the
    two units of work are interleaved. *)
Theorem response_is_schedule_independent W s1 s2 :
  reachable W s1 -> reachable W s2 ->
  returned s1 = true -> returned s2 = true ->
  w s1 = w s2 /\ eventsOf Handler (trace s1) = eventsOf Handler (trace s2).
Proof.
  intros H1 H2 R1 R2. split.
  - now rewrite (returned_response H1 R1), (returned_response H2 R2).
  - now rewrite (returned_events H1 R1), (returned_events H2 R2).
Qed.

Lemma response_is_schedule_independent_witness :
  w (exec worldTwo dependentFirst init) = w (exec worldTwo handlerFirst init).
Proof.
  assert (H1 : reachable worldTwo (exec worldTwo dependentFirst init))
    by (exists dependentFirst; reflexivity).
  assert (H2 : reachable worldTwo (exec worldTwo handlerFirst init))
    by (exists handlerFirst; reflexivity).
  assert (R1 : returned (exec worldTwo dependentFirst init) = true)
    by (vm_compute; reflexivity).
  assert (R2 : returned (exec worldTwo handlerFirst init) = true)
    by (vm_compute; reflexivity).
  apply (@response_is_schedule_independent worldTwo _ _ H1 H2 R1 R2).
Defined.

Lemma some_unit_can_move W s :
  Inv W s -> returned s = false -> exists t s', step W t s = Some s'.
Proof.
  intros HI Hr.
  destruct (hqueue s) as [|e q] eqn:Hq.
  2:{ exists Handler. cbn [step]. unfold stepHandler. rewrite Hq. eauto. }
  pose proof (inv_pc HI) as Hpc. pose proof (inv_dpc HI) as Hd.
  destruct (hpc s) eqn:Hp.
  - exists Handler. cbn [step]. unfold stepHandler. rewrite Hq, Hp, validate_eta. eauto.
  - exists Handler. cbn [step]. unfold stepHandler. rewrite Hq, Hp.
    destruct err; [eauto|]. rewrite fetch_eta. eauto.
  - exists Handler. cbn [step]. unfold stepHandler. rewrite Hq, Hp.
    destruct err; [eauto|].
    destruct (processData (processDraw W) products) as [evs [st e]]. eauto.
  - exists Handler. cbn [step]. unfold stepHandler. rewrite Hq, Hp.
    destruct err; eauto.
  - destruct Hpc as (_ & _ & _ & _ & _ & Hn & Hr').
    destruct (dqueue s) as [|e q] eqn:Hdq.
    2:{ exists Dependent. cbn [step]. unfold stepDependent. rewrite Hdq. eauto. }
    destruct (dpc s) eqn:Hdp; try congruence.
    + exists Dependent. cbn [step]. unfold stepDependent. rewrite Hdq, Hdp, slow_eta.
      eauto.
    + exists Handler. cbn [step]. unfold stepHandler. rewrite Hq, Hp.
      unfold handoff. rewrite Hq, Hp, Hdq, Hdp, respond_eta. eauto.
  - unfold returned in Hr. rewrite Hp, Hq in Hr. discriminate.
Qed.

(** X2: as long as the handler has not returned, some unit of work can
    move: the handler is never left waiting for a result that cannot
    come. *)
Theorem no_deadlock_before_return W s :
  reachable W s -> returned s = false ->
  exists t s', step W t s = Some s'.
Proof.
  intros Hs Hr. apply some_unit_can_move; [now apply Inv_reachable | exact Hr].
Qed.

Lemma no_deadlock_before_return_witness :
  exists t s', step worldTwo t (exec worldTwo atReceive init) = Some s'.
Proof.
  assert (Hs : reachable worldTwo (exec worldTwo atReceive init))
    by (exists atReceive; reflexivity).
  assert (Hr : returned (exec worldTwo atReceive init) = false)
    by (vm_compute; reflexivity).
  apply (@no_deadlock_before_return worldTwo _ Hs Hr).
Defined.

Lemma validate_length d : (List.length (fst (validateRequest d)) <= 4)%nat.
Proof. destruct (validate_cases d) as [E|E]; rewrite E; simpl; lia. Qed.

Lemma fetch_length db : (List.length (fst (GetAllProducts db)) <= 5)%nat.
Proof.
  destruct (fetch_cases db)
    as [(_ & a & x & E)|[(a & x & E)|[(a & x & E)|(p & E)]]];
    rewrite E; simpl; lia.
Qed.

Lemma process_length d p : List.length (fst (processData d p)) = 4%nat.
Proof. destruct (process_cases d p) as [E|E]; rewrite E; reflexivity. Qed.

Lemma respond_length w0 r : (List.length (snd (respond w0 r)) <= 2)%nat.
Proof.
  destruct (respond_cases w0 r) as [(w' & E)|(w' & a & E)]; rewrite E; simpl; lia.
Qed.

Lemma handoff_decreases s s' :
  handoff s = Some s' -> (stepsLeft s' < stepsLeft s)%nat.
Proof.
  unfold handoff.
  destruct (hqueue s) eqn:Hq; [|discriminate].
  destruct (hpc s) eqn:Hp; try discriminate.
  destruct (dqueue s) eqn:Hdq; [|discriminate].
  destruct (dpc s) eqn:Hdp; try discriminate.
  rewrite respond_eta. intros [= <-]. unfold stepsLeft.
  rewrite Hq, Hp, Hdq, Hdp. cbn [hqueue hpc dqueue dpc handlerWeight dependentWeight List.length].
  pose proof (respond_length (w s) (assemble products r processStatus)). lia.
Qed.

Lemma step_decreases W t s s' :
  step W t s = Some s' -> (stepsLeft s' < stepsLeft s)%nat.
Proof.
  destruct t; cbn [step].
  - unfold stepHandler. destruct (hqueue s) as [|e q] eqn:Hq.
    + destruct (hpc s) eqn:Hp.
      * pose proof (validate_length (validateDraw W)) as Hl.
        destruct (validateRequest (validateDraw W)) as [evs err].
        intros [= <-]. unfold stepsLeft. rewrite Hq, Hp.
        cbn [hqueue hpc dqueue dpc handlerWeight List.length fst] in *. lia.
      * destruct err.
        -- intros [= <-]. unfold stepsLeft, fail. rewrite Hq, Hp.
           cbn [hqueue hpc dqueue dpc handlerWeight List.length]. lia.
        -- pose proof (fetch_length (DB W)) as Hl.
           destruct (GetAllProducts (DB W)) as [evs [p e]].
           intros [= <-]. unfold stepsLeft. rewrite Hq, Hp.
           cbn [hqueue hpc dqueue dpc handlerWeight List.length fst] in *. lia.
      * destruct err.
        -- intros [= <-]. unfold stepsLeft, fail. rewrite Hq, Hp.
           cbn [hqueue hpc dqueue dpc handlerWeight List.length]. lia.
        -- pose proof (process_length (processDraw W) products) as Hl.
           destruct (processData (processDraw W) products) as [evs [st e]].
           intros [= <-]. unfold stepsLeft. rewrite Hq, Hp.
           cbn [hqueue hpc dqueue dpc handlerWeight dependentWeight List.length fst] in *.
           lia.
      * destruct err.
        -- intros [= <-]. unfold stepsLeft, fail. rewrite Hq, Hp.
           cbn [hqueue hpc dqueue dpc handlerWeight List.length]. lia.
        -- intros [= <-]. unfold stepsLeft. rewrite Hq, Hp.
           cbn [hqueue hpc dqueue dpc handlerWeight List.length]. lia.
      * apply handoff_decreases.
      * discriminate.
    + intros [= <-]. unfold stepsLeft. rewrite Hq.
      cbn [hqueue hpc dqueue dpc List.length]. lia.
  - unfold stepDependent. destruct (dqueue s) as [|e q] eqn:Hq.
    + destruct (dpc s) eqn:Hp; try discriminate.
      * rewrite slow_result. intros [= <-]. unfold stepsLeft. rewrite Hq, Hp.
        cbn [hqueue hpc dqueue dpc dependentWeight List.length]. lia.
      * apply handoff_decreases.
    + intros [= <-]. unfold stepsLeft. rewrite Hq.
      cbn [hqueue hpc dqueue dpc List.length]. lia.
Qed.

Lemma run_decreases W sched :
  forall s s', run W sched s = Some s' ->
    (List.length sched + stepsLeft s' <= stepsLeft s)%nat.
Proof.
  induction sched as [|t sched IH]; intros s s'; cbn [run List.length].
  - intros [= <-]. lia.
  - destruct (step W t s) as [s1|] eqn:E; [|discriminate].
    intros H. apply IH in H. apply step_decreases in E. lia.
Qed.

(** X3: no request runs on for ever: a run in which every turn moves has
    at most 23 steps, whatever the store returns and however the two units
    of work are interleaved. *)
Theorem every_run_is_short W sched s :
  run W sched init = Some s -> (List.length sched <= 23)%nat.
Proof. intros H. apply run_decreases in H. cbn in H. lia. Qed.

Lemma every_run_is_short_witness :
  (List.length atReceive <= 23)%nat.
Proof.
  apply (@every_run_is_short worldTwo atReceive
           (exec worldTwo atReceive init)).
  vm_compute. reflexivity.
Defined.

Lemma reachable_step W t s s' :
  reachable W s -> step W t s = Some s' -> reachable W s'.
Proof.
  intros [sched <-] E. exists (sched ++ [t]). unfold exec.
  rewrite fold_left_app. cbn [fold_left]. unfold turn at 1.
  fold (exec W sched init). now rewrite E.
Qed.

Lemma can_finish_from W n :
  forall s, (stepsLeft s <= n)%nat -> reachable W s ->
    exists sched s', run W sched s = Some s' /\ returned s' = true.
Proof.
  induction n as [|n IH]; intros s Hn Hs.
  - destruct (returned s) eqn:Hr; [exists [], s; now split|].
    destruct (some_unit_can_move (Inv_reachable Hs) Hr) as (t & s1 & E).
    apply step_decreases in E. lia.
  - destruct (returned s) eqn:Hr; [exists [], s; now split|].
    destruct (some_unit_can_move (Inv_reachable Hs) Hr) as (t & s1 & E).
    pose proof (@step_decreases W t s s1 E) as Hlt.
    destruct (IH s1) as (sched & s' & Hrun & Hret);
      [lia | now apply (@reachable_step W t s s1 Hs E)|].
    exists (t :: sched), s'. cbn [run]. rewrite E. now split.
Qed.

(** X4: wherever a request has got to, the handler can still return: there
    is a continuation, of at most 23 moves, that ends with the handler
    returned. *)
Theorem handler_can_always_finish W s :
  reachable W s ->
  exists sched s',
    run W sched s = Some s' /\ returned s' = true
    /\ (List.length sched <= 23)%nat.
Proof.
  intros Hs. destruct (@can_finish_from W (stepsLeft s) s (le_n _) Hs)
    as (sched & s' & Hrun & Hret).
  exists sched, s'. repeat split; auto.
  destruct Hs as [pre <-].
  assert (Hb : forall p s0, (stepsLeft (exec W p s0) <= stepsLeft s0)%nat).
  { induction p as [|t p IHp]; intros s0; [cbn; lia|].
    rewrite exec_cons. unfold turn. destruct (step W t s0) as [s1|] eqn:E.
    - apply step_decreases in E. specialize (IHp s1). lia.
    - apply IHp. }
  apply run_decreases in Hrun. specialize (Hb pre init). cbn in Hb. lia.
Qed.

Lemma handler_can_always_finish_witness :
  exists sched s',
    run worldProcessFails sched (exec worldProcessFails atReceive init) = Some s'
    /\ returned s' = true.
Proof.
  assert (Hs : reachable worldProcessFails (exec worldProcessFails atReceive init))
    by (exists atReceive; reflexivity).
  destruct (@handler_can_always_finish worldProcessFails _ Hs)
    as (sched & s' & Hrun & Hret & _).
  exists sched, s'. split; assumption.
Defined.

(** ** The goroutine of the dependent call *)

(** X5: a request that fails at validation or at the fetch never starts the
    dependent call: under no schedule is the goroutine started or an event
    of HandleSlowAPI emitted. *)
Theorem early_failure_starts_no_goroutine W s :
  validateErr W <> None \/ fetchErr W <> None ->
  reachable W s ->
  dpc s = DNone /\ eventsOf Dependent (trace s) = [].
Proof.
  intros Hfail Hs. pose proof (Inv_reachable Hs) as HI.
  pose proof (inv_pc HI) as Hpc.
  assert (Hd : dpc s = DNone).
  { destruct (hpc s).
    - apply Hpc.
    - apply Hpc.
    - apply Hpc.
    - destruct Hpc as (Ev & Ef & _). destruct Hfail; congruence.
    - destruct Hpc as ((Ev & Ef & _) & _). destruct Hfail; congruence.
    - destruct Hpc as [_ Hc]. destruct (dpc s); [reflexivity| | |];
        destruct Hc as (Ev & Ef & _); destruct Hfail; congruence. }
  split; [exact Hd|]. pose proof (inv_dependent HI) as H. rewrite Hd in H.
  cbn [dependentScriptAt] in H. now apply app_eq_nil in H.
Qed.

Lemma early_failure_starts_no_goroutine_witness :
  dpc (GetProductsHandler worldNoDB) = DNone
  /\ dpc (GetProductsHandler worldInvalid) = DNone.
Proof.
  split.
  - assert (Ef : fetchErr worldNoDB <> None) by (vm_compute; discriminate).
    apply (@early_failure_starts_no_goroutine worldNoDB _ (or_intror Ef)
             (reachable_GetProductsHandler worldNoDB)).
  - assert (Ev : validateErr worldInvalid <> None) by (vm_compute; discriminate).
    apply (@early_failure_starts_no_goroutine worldInvalid _ (or_introl Ev)
             (reachable_GetProductsHandler worldInvalid)).
Defined.



(** ** What is sent *)

Lemma http_Error_new_headers msg code :
  wroteHeader (http_Error newResponse msg code) = true
  /\ sentHeader (http_Error newResponse msg code) = textPlain.
Proof. split; reflexivity. Qed.

Lemma respond_headers r :
  wroteHeader (fst (respond newResponse r)) = true
  /\ statusCode (fst (respond newResponse r)) = StatusOK
  /\ sentHeader (fst (respond newResponse r)) = applicationJSON
  /\ exists p, body (fst (respond newResponse r)) = [p].
Proof.
  unfold respond, Encode. destruct (marshalResponse r); repeat split; eexists;
    reflexivity.
Qed.

(** X7: every request is answered with one status line and exactly one
    write.  A 400 or 500 goes out as text/plain with nosniff and a text
    body; a 200 always goes out as application/json, whatever the body
    turns out to be. *)
Theorem every_answer_has_one_body_and_matching_headers W :
  answers W (fun s =>
    wroteHeader (w s) = true
    /\ ((statusCode (w s) = StatusOK
         /\ sentHeader (w s) = applicationJSON
         /\ reachesAssembly W
         /\ exists p, body (w s) = [p])
        \/ ((statusCode (w s) = StatusBadRequest
             \/ statusCode (w s) = StatusInternalServerError)
            /\ sentHeader (w s) = textPlain
            /\ ~ reachesAssembly W
            /\ exists text, body (w s) = [Text text]))).
Proof.
  apply answers_intro. intros s Hs Hr. rewrite (returned_response Hs Hr).
  unfold finalResponse, reachesAssembly.
  destruct (validateErr W) as [e|] eqn:Ev;
    [|destruct (fetchErr W) as [e|] eqn:Ef;
      [|destruct (processErr W) as [e|] eqn:Ep]].
  4:{ destruct (respond_headers (assembled W)) as (H1 & H2 & H3 & H4).
      split; [exact H1|]. left. repeat split; assumption. }
  all: match goal with
       | |- context [http_Error newResponse ?m ?c] =>
           destruct (http_Error_new m c) as [H1 H2];
           destruct (http_Error_new_headers m c) as [H3 H4]
       end;
    split; [exact H3|]; right; rewrite H1;
    (split; [auto|]; split; [exact H4|];
     split; [intros (A & B & C); congruence | eexists; exact H2]).
Qed.

(** *** Which records can be encoded *)

Lemma marshalProduct_spec p :
  marshalProduct p
  = if encodable p then inr (productJSON p)
    else inl match Price p with
             | S754_infinity false => "json: unsupported value: +Inf"
             | S754_infinity true => "json: unsupported value: -Inf"
             | _ => "json: unsupported value: NaN"
             end.
Proof.
  unfold marshalProduct, marshalFloat, encodable, productJSON.
  destruct (Price p) as [ | [|] | | ]; reflexivity.
Qed.

Lemma marshalProducts_spec l :
  if forallb encodable l
  then marshalProducts l = inr (map productJSON l)
  else exists err, marshalProducts l = inl err.
Proof.
  induction l as [|p l IH]; [reflexivity|].
  cbn [forallb marshalProducts map]. rewrite marshalProduct_spec.
  destruct (encodable p); cbn [andb]; [|eexists; reflexivity].
  destruct (forallb encodable l).
  - now rewrite IH.
  - destruct IH as [err ->]. eexists; reflexivity.
Qed.

Lemma marshalResponse_spec r :
  if forallb encodable (elems (Products r))
  then marshalResponse r
       = inr (JObject [("products", productsJSON (Products r));
                       ("slow_status", JInt (SlowStatus r));
                       ("slow_message", JString (SlowMessage r));
                       ("process_status", JString (ProcessStatus r))])
  else exists err, marshalResponse r = inl err.
Proof.
  unfold marshalResponse, marshalSlice, productsJSON.
  destruct (Products r) as [l|]; cbn [elems forallb]; [|reflexivity].
  pose proof (marshalProducts_spec l) as H.
  destruct (forallb encodable l).
  - now rewrite H.
  - destruct H as [err ->]. eexists; reflexivity.
Qed.

(** X8: a request that gets as far as assembling its response is answered
    200 either way; the body is a JSON document exactly when every fetched
    price is a finite number, and the text of the encoding error exactly
    when one is NaN or infinite. *)
Theorem json_body_iff_finite_prices W :
  reachesAssembly W ->
  answers W (fun s =>
    statusCode (w s) = StatusOK
    /\ ((exists v, body (w s) = [JSONLine v])
        <-> forallb encodable (elems (fetchedProducts W)) = true)
    /\ ((exists err,
            body (w s)
            = [Text (("Failed to encode response: " +++ err) +++ newline)])
        <-> forallb encodable (elems (fetchedProducts W)) = false)).
Proof.
  intros Ha. apply answers_intro. intros s Hs Hr.
  rewrite (assembled_response Ha Hs Hr).
  pose proof (marshalResponse_spec (assembled W)) as Hm.
  cbn [assembled assemble Products] in Hm.
  fold (assembled W) in Hm.
  destruct (forallb encodable (elems (fetchedProducts W))).
  - destruct (respond_encoded _ Hm) as [-> ->]. split; [reflexivity|]. split.
    + split; [reflexivity | intros _; eexists; reflexivity].
    + split; [intros [err H]; discriminate | discriminate].
  - destruct Hm as [err Hm]. destruct (respond_refused _ Hm) as [-> ->].
    split; [reflexivity|]. split.
    + split; [intros [v H]; discriminate | discriminate].
    + split; [reflexivity | intros _; exists err; reflexivity].
Qed.

Lemma json_body_iff_finite_prices_witness :
  (exists v, body (w (GetProductsHandler worldTwo)) = [JSONLine v])
  /\ exists err,
      body (w (GetProductsHandler worldUnpriced))
      = [Text (("Failed to encode response: " +++ err) +++ newline)].
Proof.
  split.
  - assert (Ha : reachesAssembly worldTwo) by (repeat split; reflexivity).
    destruct (@json_body_iff_finite_prices worldTwo Ha) as [Hr H].
    destruct (H _ (reachable_GetProductsHandler worldTwo) Hr) as (_ & [_ H1] & _).
    apply H1. reflexivity.
  - assert (Ha : reachesAssembly worldUnpriced) by (repeat split; reflexivity).
    destruct (@json_body_iff_finite_prices worldUnpriced Ha) as [Hr H].
    destruct (H _ (reachable_GetProductsHandler worldUnpriced) Hr)
      as (_ & _ & [_ H1]).
    apply H1. reflexivity.
Defined.



(** ** The handler's span and the dependent call's answer *)

Lemma dependent_events_filtered W s (P : event -> bool) :
  Inv W s -> P (TimeSleep 2000) = false ->
  filter P (eventsOf Dependent (trace s)) = [].
Proof.
  intros HI HP. pose proof (inv_dependent HI) as H.
  apply filter_prefix_nil with (b := dqueue s). rewrite H.
  destruct (dpc s); cbn [dependentScriptAt]; rewrite ?slow_result;
    cbn [fst filter]; rewrite ?HP; reflexivity.
Qed.

Lemma validated_no_handler_error d :
  filter isHandlerError (SpanStart handlerSpan :: fst (validateRequest d)) = [].
Proof. destruct (validate_cases d) as [E|E]; rewrite E; reflexivity. Qed.

Lemma fetch_no_handler_error db :
  filter isHandlerError (fst (GetAllProducts db)) = [].
Proof.
  destruct (fetch_cases db)
    as [(_ & a & x & E)|[(a & x & E)|[(a & x & E)|(p & E)]]];
    rewrite E; reflexivity.
Qed.

Lemma process_no_handler_error d p :
  filter isHandlerError (fst (processData d p)) = [].
Proof. destruct (process_cases d p) as [E|E]; rewrite E; reflexivity. Qed.

Lemma handler_errors_in_script W :
  List.length (filter isHandlerError (handlerScript W))
  = match validateErr W, fetchErr W, processErr W with
    | None, None, None =>
        match marshalResponse (assembled W) with
        | inr _ => 0%nat
        | inl _ => 1%nat
        end
    | _, _, _ => 1%nat
    end.
Proof.
  unfold handlerScript, fetchScript, processScript.
  destruct (validateErr W);
    [|destruct (fetchErr W); [|destruct (processErr W)]];
    rewrite ?filter_app, ?length_app, ?validated_no_handler_error,
      ?fetch_no_handler_error, ?process_no_handler_error;
    try reflexivity.
  unfold respond, Encode. destruct (marshalResponse (assembled W)); reflexivity.
Qed.

(** X10: the handler's own span gets the error attribute exactly once when
    the request is answered with anything but a JSON document, and not at
    all when it is answered with one. *)
Theorem handler_span_error_iff_no_document W :
  answers W (fun s =>
    (count isHandlerError (trace s) = 0%nat
     <-> exists v, body (w s) = [JSONLine v])
    /\ (count isHandlerError (trace s) = 1%nat
        <-> exists text, body (w s) = [Text text])).
Proof.
  apply answers_intro. intros s Hs Hr.
  rewrite count_split, (returned_events Hs Hr),
    (@dependent_events_filtered W s isHandlerError (Inv_reachable Hs) eq_refl),
    handler_errors_in_script, (returned_response Hs Hr).
  cbn [List.length]. rewrite Nat.add_0_r. unfold finalResponse.
  destruct (validateErr W) as [e|];
    [|destruct (fetchErr W) as [e|]; [|destruct (processErr W) as [e|]]].
  4:{ destruct (marshalResponse (assembled W)) as [e|v] eqn:Hm;
        [destruct (respond_refused _ Hm) as [_ ->]
        |destruct (respond_encoded _ Hm) as [_ ->]];
        (split;
         (split;
          [intros H; try discriminate H; try (eexists; reflexivity)
          |intros [? H]; try discriminate H; try reflexivity])). }
  all: match goal with
       | |- context [http_Error newResponse ?m ?c] =>
           destruct (http_Error_new m c) as [_ ->]
       end;
    (split;
     (split;
      [intros H; try discriminate H; try (eexists; reflexivity)
      |intros [? H]; try discriminate H; try reflexivity])).
Qed.

(** X11: the dependent call never fails: in every document the handler
    writes slow_status is 200 and slow_message is the line HandleSlowAPI
    stamps with its clock reading. *)
Theorem slow_status_is_always_200 W :
  reachesAssembly W ->
  answers W (fun s =>
    forall v, In (JSONLine v) (body (w s)) ->
      field "slow_status" v = Some (JInt 200)
      /\ field "slow_message" v
         = Some (JString ("Slow API response at " +++ now W +++ newline))).
Proof.
  intros Ha. apply answers_intro. intros s Hs Hr.
  rewrite (assembled_response Ha Hs Hr). intros v Hin.
  destruct (marshalResponse (assembled W)) as [e|v0] eqn:Hm.
  - destruct (respond_refused _ Hm) as [_ Hb]. rewrite Hb in Hin.
    destruct Hin as [H|[]]; discriminate.
  - destruct (respond_encoded _ Hm) as [_ Hb]. rewrite Hb in Hin.
    destruct Hin as [[= <-]|[]].
    destruct (marshalResponse_fields _ Hm) as (H1 & H2 & _).
    rewrite H1, H2. unfold assembled, assemble, slowOf, slowRecorder.
    cbn [SlowStatus SlowMessage status msg]. rewrite slow_result.
    split; reflexivity.
Qed.

Lemma slow_status_is_always_200_witness :
  exists v,
    In (JSONLine v) (body (w (GetProductsHandler worldTwo)))
    /\ field "slow_status" v = Some (JInt 200).
Proof.
  assert (Ha : reachesAssembly worldTwo) by (repeat split; reflexivity).
  destruct (@slow_status_is_always_200 worldTwo Ha) as [Hr H].
  assert (Hin : exists v, In (JSONLine v) (body (w (GetProductsHandler worldTwo))))
    by (eexists; vm_compute; left; reflexivity).
  destruct Hin as [v Hv]. exists v. split; [exact Hv|].
  apply (H _ (reachable_GetProductsHandler worldTwo) Hr v Hv).
Defined.

(** ** More on the store fetch *)

(** X12: GetAllProducts closes the cursor exactly once whenever the query
    gave it one, also when a row fails to scan or the cursor reports an
    error, and has no cursor to close when the query itself fails; a failed
    query is returned as "error querying products". *)
Theorem cursor_closed_iff_opened d :
  match QueryContext d query with
  | inl err =>
      snd (GetAllProducts (Some d))
      = (None, Some ("error querying products: " +++ err))
      /\ List.length (filter isRowsClose (fst (GetAllProducts (Some d)))) = 0%nat
  | inr _ =>
      List.length (filter isRowsClose (fst (GetAllProducts (Some d)))) = 1%nat
  end
  /\ List.length (filter isDBQuery (fst (GetAllProducts (Some d)))) = 1%nat
  /\ List.length (filter isRowsClose (fst (GetAllProducts None))) = 0%nat
  /\ List.length (filter isDBQuery (fst (GetAllProducts None))) = 0%nat.
Proof.
  unfold GetAllProducts, withSpan. cbv zeta.
  destruct (QueryContext d query) as [err|rows].
  - repeat split.
  - destruct (scanRows (rows_data rows) None); [repeat split|].
    destruct (rows_Err rows); repeat split.
Qed.

Lemma scanRows_first_error ps err rest :
  forall acc, scanRows (map inr ps ++ inl err :: rest) acc = inl err.
Proof. induction ps as [|p ps IH]; intros acc; [reflexivity | apply IH]. Qed.

(** X13: the error GetAllProducts reports is that of the first row that
    fails to scan, whatever the rows after it hold and whatever the cursor
    would report; the cursor's own error is reported only when every row
    has scanned. *)
Theorem first_scan_error_wins d rows ps :
  QueryContext d query = inr rows ->
  (forall err rest,
      rows_data rows = map inr ps ++ inl err :: rest ->
      snd (GetAllProducts (Some d))
      = (None, Some ("error scanning product row: " +++ err)))
  /\ (forall err,
        rows_data rows = map inr ps -> rows_Err rows = Some err ->
        snd (GetAllProducts (Some d))
        = (None, Some ("error iterating over product rows: " +++ err))).
Proof.
  intros Hq. unfold GetAllProducts, withSpan. cbv zeta. rewrite Hq. split.
  - intros err rest Hd. now rewrite Hd, scanRows_first_error.
  - intros err Hd He. now rewrite Hd, scanRows_all, He.
Qed.

Lemma first_scan_error_wins_witness :
  snd (GetAllProducts (Some scanFailure))
  = (None, Some "error scanning product row: converting NULL to int is unsupported")
  /\ snd (GetAllProducts (Some cursorFailure))
     = (None, Some "error iterating over product rows: invalid connection").
Proof.
  split.
  - assert (Hq : QueryContext scanFailure query
                 = inr {| rows_data := [inr widget;
                                        inl "converting NULL to int is unsupported";
                                        inr gadget];
                          rows_Err := None |}) by reflexivity.
    destruct (@first_scan_error_wins _ _ [widget] Hq) as [H _].
    apply (H "converting NULL to int is unsupported" [inr gadget] eq_refl).
  - assert (Hq : QueryContext cursorFailure query
                 = inr {| rows_data := [inr widget; inr gadget];
                          rows_Err := Some "invalid connection" |}) by reflexivity.
    destruct (@first_scan_error_wins _ _ [widget; gadget] Hq) as [_ H].
    apply (H "invalid connection" eq_refl eq_refl).
Defined.

(** ** InitDB *)

Lemma fetch_not_uninitialized db :
  snd (snd (GetAllProducts (Some db))) <> Some notInitialized.
Proof.
  unfold GetAllProducts, withSpan, notInitialized. cbv zeta.
  destruct (QueryContext db query) as [err|rows]; [cbn; discriminate|].
  destruct (scanRows (rows_data rows) None); [cbn; discriminate|].
  destruct (rows_Err rows); cbn; discriminate.
Qed.

(** X14: InitDB returns nil exactly when both sql.Open and Ping succeed;
    it then leaves the opened handle in DB, prints its success line, and
    GetAllProducts on that handle never reports the store as
    uninitialized. *)
Theorem InitDB_succeeds_iff_open_and_ping drv username password pkg :
  snd (InitDB drv username password pkg) = None
  <-> exists db,
      sql_Open drv "mysql" (dataSourceName username password) = inr db
      /\ Ping drv db = None
      /\ pkg_DB (fst (InitDB drv username password pkg)) = Some db
      /\ pkg_stdout (fst (InitDB drv username password pkg))
         = pkg_stdout pkg ++ ["Successfully connected to the MySQL database!"]
      /\ snd (snd (GetAllProducts
                     (pkg_DB (fst (InitDB drv username password pkg)))))
         <> Some notInitialized.
Proof.
  unfold InitDB. cbv zeta.
  destruct (sql_Open drv "mysql" (dataSourceName username password)) as [e|db].
  - split; [discriminate | intros (db & [=] & _)].
  - destruct (Ping drv db) as [e|] eqn:Hp.
    + split; [discriminate | intros (db' & [= <-] & H & _); congruence].
    + split; [|reflexivity]. intros _. exists db.
      repeat split; auto. apply fetch_not_uninitialized.
Qed.

(** X15: a failed InitDB prints nothing and leaves DB in one of two
    states, whatever DB held before.  When sql.Open failed DB is nil, and
    GetAllProducts reports the store as uninitialized.  When Ping failed DB
    keeps the handle that could not be reached, so GetAllProducts passes its
    nil check and goes to that handle. *)
Theorem failed_InitDB_leaves_nil_or_unreachable_handle
    drv username password pkg err :
  snd (InitDB drv username password pkg) = Some err ->
  pkg_stdout (fst (InitDB drv username password pkg)) = pkg_stdout pkg
  /\ ((exists e,
          sql_Open drv "mysql" (dataSourceName username password) = inl e
          /\ err = "error opening database: " +++ e
          /\ pkg_DB (fst (InitDB drv username password pkg)) = None
          /\ snd (GetAllProducts
                    (pkg_DB (fst (InitDB drv username password pkg))))
             = (None, Some notInitialized))
      \/ (exists db e,
            sql_Open drv "mysql" (dataSourceName username password) = inr db
            /\ Ping drv db = Some e
            /\ err = "error connecting to the database: " +++ e
            /\ pkg_DB (fst (InitDB drv username password pkg)) = Some db
            /\ snd (snd (GetAllProducts
                           (pkg_DB (fst (InitDB drv username password pkg)))))
               <> Some notInitialized)).
Proof.
  unfold InitDB. cbv zeta.
  destruct (sql_Open drv "mysql" (dataSourceName username password)) as [e|db].
  - intros [= <-]. split; [reflexivity|]. left. exists e. repeat split.
  - destruct (Ping drv db) as [e|] eqn:Hp; [|discriminate].
    intros [= <-]. split; [reflexivity|]. right. exists db, e.
    repeat split; auto. apply fetch_not_uninitialized.
Qed.

Lemma failed_InitDB_witness :
  pkg_DB (fst (InitDB noDriver "kienlt" "123123"
                 {| pkg_DB := Some (table [] None); pkg_stdout := [] |}))
  = None
  /\ pkg_DB (fst (InitDB unreachableDriver "kienlt" "123123" freshPackage))
     <> None.
Proof.
  split.
  - assert (H : snd (InitDB noDriver "kienlt" "123123"
                       {| pkg_DB := Some (table [] None); pkg_stdout := [] |})
                = Some "error opening database: sql: unknown driver")
      by reflexivity.
    destruct (@failed_InitDB_leaves_nil_or_unreachable_handle _ _ _ _ _ H)
      as [_ [(e & _ & _ & Hd & _)|(db & e & Ho & _)]];
      [exact Hd | discriminate Ho].
  - assert (H : snd (InitDB unreachableDriver "kienlt" "123123" freshPackage)
                = Some "error connecting to the database: dial tcp 127.0.0.1:3306: connect: connection refused")
      by reflexivity.
    destruct (@failed_InitDB_leaves_nil_or_unreachable_handle _ _ _ _ _ H)
      as [_ [(e & Ho & _)|(db & e & _ & _ & _ & Hd & _)]];
      [discriminate Ho | rewrite Hd; discriminate].
Defined.

Lemma append_assoc (a b c : string) : (a +++ b) +++ c = a +++ (b +++ c).
Proof. induction a as [|x a IH]; simpl; [reflexivity | now rewrite IH]. Qed.

(** X16: the data source name is put together without escaping, so a colon
    in the user name cannot be told from the separator: InitDB does the
    same thing for user "u:p" with password "q" as for user "u" with
    password "p:q". *)
Theorem InitDB_cannot_tell_colon_credentials_apart drv u p q pkg :
  dataSourceName (u +++ ":" +++ p) q = dataSourceName u (p +++ ":" +++ q)
  /\ InitDB drv (u +++ ":" +++ p) q pkg = InitDB drv u (p +++ ":" +++ q) pkg.
Proof.
  assert (H : dataSourceName (u +++ ":" +++ p) q
              = dataSourceName u (p +++ ":" +++ q)).
  { unfold dataSourceName. now rewrite !append_assoc. }
  split; [exact H|]. unfold InitDB. now rewrite H.
Qed.

(** ** The environment *)

Lemma Getenv_Setenv k v env : Getenv k (Setenv k v env) = v.
Proof. unfold Getenv, Setenv. cbn [assoc]. now rewrite String.eqb_refl. Qed.

Lemma Getenv_Setenv_other k k' v env :
  k <> k' -> Getenv k (Setenv k' v env) = Getenv k env.
Proof.
  intros H. unfold Getenv, Setenv. cbn [assoc].
  destruct (String.eqb_spec k k'); [contradiction | reflexivity].
Qed.

(** X17: both entry points overwrite SERVICE_NAME before anything reads it,
    so the service.name of the resource is "otel-go-app-sample-kienlt"
    whatever the environment says and the default of NewResource is never
    used; the collector endpoint and the listen address still follow the
    environment. *)
Theorem main_overrides_the_service_name env :
  assoc "service.name" (NewResource (mainEnviron env))
  = Some "otel-go-app-sample-kienlt"
  /\ collectorEndpoint (mainEnviron env) = collectorEndpoint env
  /\ listenAddr (mainEnviron env) = listenAddr env.
Proof.
  unfold NewResource, serviceName, collectorEndpoint, listenAddr, mainEnviron.
  rewrite Getenv_Setenv, !Getenv_Setenv_other by discriminate.
  repeat split.
Qed.

(** ** otelsetup.HandleRequest *)

Import otelsetup.

Ltac handle_request_cases e :=
  unfold HandleRequest, DatabaseCall, ExternalAPICall; cbv zeta;
  destruct (tracerSet e); [|discriminate];
  destruct (Z.eqb_spec (Z.rem (unixNano e) 10) 0) as [Hn|Hn];
  [|destruct (httpbin e) as [err|[err|]]].

(** X18: with the tracer set up HandleRequest always answers, with one
    line of text: 200 exactly when the database call and the external call
    both succeed and 500 otherwise; the external request is sent exactly
    when the database call has succeeded. *)
Theorem HandleRequest_answers_200_iff_both_calls_succeed e :
  tracerSet e = true ->
  exists calls w',
    HandleRequest e newResponse = Ok (calls, w')
    /\ (statusCode w' = StatusOK
        <-> Z.rem (unixNano e) 10 <> 0 /\ httpbin e = inr None)
    /\ (statusCode w' = StatusInternalServerError
        <-> Z.rem (unixNano e) 10 = 0 \/ httpbin e <> inr None)
    /\ (exists text, body w' = [Text text])
    /\ (times isClientDo calls = 0%nat <-> Z.rem (unixNano e) 10 = 0)
    /\ (times isClientDo calls = 1%nat <-> Z.rem (unixNano e) 10 <> 0).
Proof.
  intros Ht. unfold HandleRequest, DatabaseCall, ExternalAPICall. cbv zeta.
  rewrite Ht.
  destruct (Z.eqb_spec (Z.rem (unixNano e) 10) 0) as [Hn|Hn];
    [|destruct (httpbin e) as [err|[err|]]];
    do 2 eexists; (split; [reflexivity|]);
    cbn [statusCode body http_Error]; unfold times; cbn [filter isClientDo app List.length];
    repeat split; try discriminate; try congruence; try tauto;
    try (intros [H1 H2]; congruence); try (intros [H|H]; congruence);
    try (eexists; reflexivity); try (right; discriminate); try (left; assumption).
Qed.

Lemma HandleRequest_answers_witness :
  exists calls w',
    HandleRequest healthyEnv newResponse = Ok (calls, w')
    /\ statusCode w' = 200.
Proof.
  destruct (@HandleRequest_answers_200_iff_both_calls_succeed healthyEnv eq_refl)
    as (calls & w' & He & [_ H] & _).
  exists calls, w'. split; [exact He|]. apply H. split; [discriminate | reflexivity].
Defined.

Lemma span_name_cases (span : string) :
  (String.eqb "database.query" span = true
   /\ String.eqb "external.api.request" span = false)
  \/ (String.eqb "database.query" span = false
      /\ String.eqb "external.api.request" span = true)
  \/ (String.eqb "database.query" span = false
      /\ String.eqb "external.api.request" span = false).
Proof.
  destruct (String.eqb_spec "database.query" span) as [<-|H1];
    [left; split; reflexivity|].
  destruct (String.eqb_spec "external.api.request" span); auto.
Qed.

(** X19: whenever HandleRequest returns, every span it started has been
    ended exactly once, and an error has been recorded on a span exactly
    when the answer is 500: once, on the span of the call that failed. *)
Theorem HandleRequest_ends_spans_and_records_errors e calls w' :
  HandleRequest e newResponse = Ok (calls, w') ->
  (forall span,
      times (starts span) calls = times (ends span) calls
      /\ (times (starts span) calls <= 1)%nat
      /\ (times (recordsError span) calls <= times (starts span) calls)%nat)
  /\ (statusCode w' = StatusInternalServerError
      <-> times isRecordError calls = 1%nat)
  /\ (statusCode w' = StatusOK <-> times isRecordError calls = 0%nat).
Proof.
  handle_request_cases e; intros [= <- <-]; unfold times;
    cbn [filter starts ends recordsError isRecordError app List.length
         statusCode http_Error];
    (split;
     [intros span;
      destruct (span_name_cases span) as [[H1 H2]|[[H1 H2]|[H1 H2]]];
      rewrite ?H1, ?H2; cbn [List.length app]; repeat split; lia
     |split; split; intros H; try reflexivity; try discriminate H]).
Qed.

Lemma HandleRequest_ends_spans_witness :
  exists calls w',
    HandleRequest unluckyEnv newResponse = Ok (calls, w')
    /\ times (starts "database.query") calls
       = times (ends "database.query") calls.
Proof.
  destruct (HandleRequest unluckyEnv newResponse) as [[calls w']|] eqn:E;
    [|discriminate E].
  exists calls, w'. split; [reflexivity|].
  destruct (@HandleRequest_ends_spans_and_records_errors _ _ _ E) as [H _].
  apply (H "database.query").
Defined.

(** X20: the body of the external response is closed exactly once whenever
    client.Do returned a response, also when reading it fails, and there is
    nothing to close when the request was not sent or failed. *)
Theorem HandleRequest_closes_the_body_iff_got_response e calls w' :
  HandleRequest e newResponse = Ok (calls, w') ->
  (times isBodyClose calls = 1%nat
   <-> Z.rem (unixNano e) 10 <> 0 /\ exists r, httpbin e = inr r)
  /\ (times isBodyClose calls = 0%nat
      <-> Z.rem (unixNano e) 10 = 0 \/ exists err, httpbin e = inl err).
Proof.
  unfold HandleRequest, DatabaseCall, ExternalAPICall; cbv zeta.
  destruct (tracerSet e); [|discriminate].
  destruct (Z.eqb_spec (Z.rem (unixNano e) 10) 0) as [Hn|Hn];
    [|destruct (httpbin e) as [err|[err|]] eqn:Hb];
    intros [= <- <-]; unfold times;
    cbn [filter isBodyClose app List.length];
    (split; split; intros H; try reflexivity; try discriminate H;
     try (destruct H as (H1 & r & H2); congruence);
     try (destruct H as [H|(x & H)]; congruence);
     try (split; [assumption | eexists; reflexivity]);
     try (left; assumption); try (right; eexists; reflexivity)).
Qed.

Lemma HandleRequest_closes_the_body_witness :
  exists calls w',
    HandleRequest offlineEnv newResponse = Ok (calls, w')
    /\ (times isBodyClose calls = 0%nat
        <-> Z.rem (unixNano offlineEnv) 10 = 0
            \/ exists err, httpbin offlineEnv = inl err).
Proof.
  destruct (HandleRequest offlineEnv newResponse) as [[calls w']|] eqn:E;
    [|discriminate E].
  exists calls, w'. split; [reflexivity|].
  apply (@HandleRequest_closes_the_body_iff_got_response _ _ _ E).
Defined.
